(** * Task registration, deployment and wire protocol of trigger.dev (v3)

    A shallow embedding of
    - [CreateBackgroundWorkerService.call] and [createBackgroundTasks]
      (the background worker registry),
    - the [deploy] command of the CLI: the environment variable gate,
      [waitForDeploymentToComplete], the content hash of [compileProject]
      and [gatherRequiredDependencies],
    - the scans of [findAllEnvironmentVariableReferences] and
      [extractImageDigest],
    - the zod message catalogues of [packages/core/src/v3/schemas/schemas.ts],
    together with the properties the specification states about them and
    further properties of the code. *)

From Stdlib Require Import ZArith NArith Lia Ascii DecimalString.
From stdpp Require Import base option list strings pretty gmap sorting lexico.
From Equations Require Import Equations.

(** The double quote of the messages. *)
Definition dquote : string := String (Ascii.ascii_of_nat 34) EmptyString.

Open Scope string_scope.
Open Scope list_scope.
Open Scope nat_scope.
Open Scope stdpp_scope.

(** ** JavaScript values shared by the modules *)

(** JSON documents: the payloads that the code stores or forwards without
    looking inside ([retry], [rateLimit]) and the inputs of the zod parsers.
    Numbers are integers here, none of the modelled code computes with
    fractions. [undefined] is [None] at an [option Json]. *)
#[warnings="-register-all"]
Inductive Json : Type :=
  | JNull
  | JBool (b : bool)
  | JNum (n : Z)
  | JStr (s : string)
  | JArr (items : list Json)
  | JObj (fields : list (string * Json)).

(** The truthiness test [if (s)] of an optional string: [undefined] and the
    empty string are falsy. *)
Definition truthy_string (v : option string) : option string :=
  match v with
  | Some s => if decide (s = "") then None else Some s
  | None => None
  end.

(** The truthiness test [if (n)] of an optional integer: [undefined], [null]
    and [0] are falsy. *)
Definition truthy_number (v : option Z) : option Z :=
  match v with
  | Some n => if decide (n = 0%Z) then None else Some n
  | None => None
  end.

(** [items.join(sep)] on an array of strings. *)
Fixpoint join (sep : string) (items : list string) : string :=
  match items with
  | [] => ""
  | [x] => x
  | x :: rest => x +:+ sep +:+ join sep rest
  end.

(** Results of code that can throw. *)
Inductive Result (A : Type) : Type :=
  | Ok (a : A)
  | Throw (error : string).
Arguments Ok {A} a.
Arguments Throw {A} error.

(** ** The background worker registry
    [apps/webapp/app/v3/services/createBackgroundWorker.server.ts] *)
Module Registry.

(** *** Request body: [CreateBackgroundWorkerRequestBody] *)

Record QueueOptions : Type := {
  queue_name : option string;
  queue_concurrencyLimit : option Z;
  queue_rateLimit : option Json
}.

Record TaskResource : Type := {
  task_id : string;
  task_filePath : string;
  task_exportName : string;
  task_retry : option Json;
  task_queue : option QueueOptions
}.

Record Metadata : Type := {
  contentHash : string;
  packageVersion : string;
  cliPackageVersion : option string;
  tasks : list TaskResource
}.

Record RequestBody : Type := { metadata : Metadata }.

Record AuthenticatedEnvironment : Type := { env_id : string }.

(** *** Rows of the database tables the service touches *)

Record Project : Type := {
  project_id : string;
  project_externalRef : string;
  project_environments : list string
}.

Record BackgroundWorker : Type := {
  worker_id : string;
  worker_friendlyId : string;
  worker_version : string;
  worker_runtimeEnvironmentId : string;
  worker_projectId : string;
  worker_metadata : Metadata;
  worker_contentHash : string;
  worker_cliVersion : option string;
  worker_sdkVersion : string;
  worker_createdAt : nat
}.

Record BackgroundWorkerTask : Type := {
  bwt_friendlyId : string;
  bwt_projectId : string;
  bwt_runtimeEnvironmentId : string;
  bwt_workerId : string;
  bwt_slug : string;
  bwt_filePath : string;
  bwt_exportName : string;
  bwt_retryConfig : option Json;
  bwt_queueConfig : option QueueOptions
}.

Inductive TaskQueueType : Type := NAMED | VIRTUAL.

Record TaskQueue : Type := {
  tq_friendlyId : string;
  tq_name : string;
  tq_concurrencyLimit : option Z;
  tq_runtimeEnvironmentId : string;
  tq_projectId : string;
  tq_rateLimit : option Json;
  tq_type : TaskQueueType
}.

(** One call [marqs.updateQueueConcurrency(env, queueName, limit)]. *)
Record ConcurrencyUpdate : Type := {
  cu_env : AuthenticatedEnvironment;
  cu_queue : string;
  cu_limit : Z
}.

(** *** The state the service runs against

    The four tables (rows in insertion order), the database clock that
    stamps [createdAt], the supply from which identifiers are drawn, and the
    [marqs] singleton: [None] when the module exports [undefined] (the calls
    are written [marqs?.updateQueueConcurrency]), otherwise the calls it has
    received, oldest first. *)
Record World : Type := {
  projects : list Project;
  backgroundWorkers : list BackgroundWorker;
  backgroundWorkerTasks : list BackgroundWorkerTask;
  taskQueues : list TaskQueue;
  now : nat;
  entropy : nat;
  marqs : option (list ConcurrencyUpdate)
}.

Definition set_backgroundWorkers (f : list BackgroundWorker → list BackgroundWorker)
    (w : World) : World :=
  {| projects := projects w; backgroundWorkers := f (backgroundWorkers w);
     backgroundWorkerTasks := backgroundWorkerTasks w; taskQueues := taskQueues w;
     now := now w; entropy := entropy w; marqs := marqs w |}.

Definition set_backgroundWorkerTasks
    (f : list BackgroundWorkerTask → list BackgroundWorkerTask) (w : World) : World :=
  {| projects := projects w; backgroundWorkers := backgroundWorkers w;
     backgroundWorkerTasks := f (backgroundWorkerTasks w); taskQueues := taskQueues w;
     now := now w; entropy := entropy w; marqs := marqs w |}.

Definition set_taskQueues (f : list TaskQueue → list TaskQueue) (w : World) : World :=
  {| projects := projects w; backgroundWorkers := backgroundWorkers w;
     backgroundWorkerTasks := backgroundWorkerTasks w; taskQueues := f (taskQueues w);
     now := now w; entropy := entropy w; marqs := marqs w |}.

Definition set_now (f : nat → nat) (w : World) : World :=
  {| projects := projects w; backgroundWorkers := backgroundWorkers w;
     backgroundWorkerTasks := backgroundWorkerTasks w; taskQueues := taskQueues w;
     now := f (now w); entropy := entropy w; marqs := marqs w |}.

Definition set_entropy (f : nat → nat) (w : World) : World :=
  {| projects := projects w; backgroundWorkers := backgroundWorkers w;
     backgroundWorkerTasks := backgroundWorkerTasks w; taskQueues := taskQueues w;
     now := now w; entropy := f (entropy w); marqs := marqs w |}.

Definition set_marqs (f : list ConcurrencyUpdate → list ConcurrencyUpdate)
    (w : World) : World :=
  {| projects := projects w; backgroundWorkers := backgroundWorkers w;
     backgroundWorkerTasks := backgroundWorkerTasks w; taskQueues := taskQueues w;
     now := now w; entropy := entropy w; marqs := f <$> marqs w |}.

(** *** The monad of the service: state and exceptions *)

Definition M (A : Type) : Type := World → Result A * World.

#[export] Instance M_ret : MRet M := λ A a w, (Ok a, w).
#[export] Instance M_bind : MBind M := λ A B f m w,
  match m w with
  | (Ok a, w') => f a w'
  | (Throw e, w') => (Throw e, w')
  end.

Definition throw {A} (e : string) : M A := λ w, (Throw e, w).
Definition get : M World := λ w, (Ok w, w).
Definition modify (f : World → World) : M unit := λ w, (Ok tt, f w).

(** [for (const x of xs) { await body(x) }] *)
Fixpoint for_of {A} (xs : list A) (body : A → M unit) : M unit :=
  match xs with
  | [] => mret tt
  | x :: xs' => body x ;; for_of xs' body
  end.

(** *** Code of the repository that the service imports

    [generateFriendlyId] and the identifiers of new rows draw on randomness,
    [calculateNextBuildVersion] lives in a file of its own: the service is
    modelled over any choice of the three. *)
Record Imports : Type := {
  friendlyId : string → nat → string;
  cuid : nat → string;
  calculateNextBuildVersion : option string → string
}.

Section service.
Context (imports : Imports).

Definition generateFriendlyId (prefix : string) : M string :=
  w ← get;
  modify (set_entropy S) ;;
  mret (friendlyId imports prefix (entropy w)).

Definition generateRowId : M string :=
  w ← get;
  modify (set_entropy S) ;;
  mret (cuid imports (entropy w)).

(** [createdAt @default(now())]: the stamp of a new worker row, the only
    [createdAt] the service reads; later rows get later stamps. *)
Definition timestamp : M nat :=
  w ← get;
  modify (set_now S) ;;
  mret (now w).

(** [orderBy: { createdAt: "desc" }] *)
Definition createdAt_desc (a b : BackgroundWorker) : Prop :=
  worker_createdAt b ≤ worker_createdAt a.

#[export] Instance createdAt_desc_dec a b : Decision (createdAt_desc a b).
Proof. unfold createdAt_desc. apply _. Defined.

(** The [include] of [project.findUniqueOrThrow]: the workers of the
    project in the environment, newest first, one at most. *)
Definition include_backgroundWorkers (project : Project) (environmentId : string)
    (w : World) : list BackgroundWorker :=
  take 1
    (merge_sort createdAt_desc
       (filter (λ bw, worker_projectId bw = project_id project
                      ∧ worker_runtimeEnvironmentId bw = environmentId)
               (backgroundWorkers w))).

Definition matches_project (projectRef environmentId : string) (p : Project) : Prop :=
  project_externalRef p = projectRef ∧ environmentId ∈ project_environments p.

#[export] Instance matches_project_dec r e p : Decision (matches_project r e p).
Proof. unfold matches_project. apply _. Defined.

Definition project_findUniqueOrThrow (projectRef environmentId : string)
    : M (Project * list BackgroundWorker) :=
  w ← get;
  match list_find (matches_project projectRef environmentId) (projects w) with
  | Some (_, project) => mret (project, include_backgroundWorkers project environmentId w)
  | None => throw "No Project found"
  end.

(** [prisma.backgroundWorker.create] *)
Definition backgroundWorker_create (friendly version environmentId projectId : string)
    (m : Metadata) : M BackgroundWorker :=
  rowId ← generateRowId;
  createdAt ← timestamp;
  let row := {| worker_id := rowId; worker_friendlyId := friendly;
                worker_version := version;
                worker_runtimeEnvironmentId := environmentId;
                worker_projectId := projectId;
                worker_metadata := m;
                worker_contentHash := contentHash m;
                worker_cliVersion := cliPackageVersion m;
                worker_sdkVersion := packageVersion m;
                worker_createdAt := createdAt |} in
  modify (set_backgroundWorkers (λ rows, rows ++ [row])) ;;
  mret row.

(** [prisma.backgroundWorkerTask.create] *)
Definition backgroundWorkerTask_create (friendly : string) (worker : BackgroundWorker)
    (task : TaskResource) : M unit :=
  modify (set_backgroundWorkerTasks (λ rows, rows ++ [
    {| bwt_friendlyId := friendly;
       bwt_projectId := worker_projectId worker;
       bwt_runtimeEnvironmentId := worker_runtimeEnvironmentId worker;
       bwt_workerId := worker_id worker;
       bwt_slug := task_id task;
       bwt_filePath := task_filePath task;
       bwt_exportName := task_exportName task;
       bwt_retryConfig := task_retry task;
       bwt_queueConfig := task_queue task |}])).

(** The unique key [runtimeEnvironmentId_name] of the queue table. *)
Definition queue_key (q : TaskQueue) : string * string :=
  (tq_runtimeEnvironmentId q, tq_name q).

(** The [update] branch of an upsert: Prisma leaves a column alone when the
    value handed to it is [undefined]. *)
Definition update_column {A} (new : option A) (old : option A) : option A :=
  match new with
  | Some v => Some v
  | None => old
  end.

Definition taskQueue_update (concurrencyLimit : option Z) (rateLimit : option Json)
    (q : TaskQueue) : TaskQueue :=
  {| tq_friendlyId := tq_friendlyId q; tq_name := tq_name q;
     tq_concurrencyLimit := update_column concurrencyLimit (tq_concurrencyLimit q);
     tq_runtimeEnvironmentId := tq_runtimeEnvironmentId q;
     tq_projectId := tq_projectId q;
     tq_rateLimit := update_column rateLimit (tq_rateLimit q);
     tq_type := tq_type q |}.

(** The row with the key, updated in place, or the new row at the end of
    the table; the row as it is afterwards comes back with the table. *)
Fixpoint upsert_row (key : string * string) (update : TaskQueue → TaskQueue)
    (create : TaskQueue) (rows : list TaskQueue) : TaskQueue * list TaskQueue :=
  match rows with
  | [] => (create, [create])
  | q :: rows' =>
      if decide (queue_key q = key) then (update q, update q :: rows')
      else let '(r, rows'') := upsert_row key update create rows' in (r, q :: rows'')
  end.

(** [task.queue?.name ?? `task/${task.id}`] *)
Definition queueName (task : TaskResource) : string :=
  default ("task/" +:+ task_id task) (task_queue task ≫= queue_name).

(** [prisma.taskQueue.upsert] with the arguments of [createBackgroundTasks]. *)
Definition taskQueue_upsert (friendly : string) (worker : BackgroundWorker)
    (task : TaskResource) : M TaskQueue :=
  let queueName := queueName task in
  let concurrencyLimit := task_queue task ≫= queue_concurrencyLimit in
  let rateLimit := task_queue task ≫= queue_rateLimit in
  let create :=
    {| tq_friendlyId := friendly; tq_name := queueName;
       tq_concurrencyLimit := concurrencyLimit;
       tq_runtimeEnvironmentId := worker_runtimeEnvironmentId worker;
       tq_projectId := worker_projectId worker;
       tq_rateLimit := rateLimit;
       tq_type := match truthy_string (task_queue task ≫= queue_name) with
                  | Some _ => NAMED
                  | None => VIRTUAL
                  end |} in
  w ← get;
  let '(row, rows) :=
    upsert_row (worker_runtimeEnvironmentId worker, queueName)
               (taskQueue_update concurrencyLimit rateLimit) create (taskQueues w) in
  modify (set_taskQueues (λ _, rows)) ;;
  mret row.

(** [marqs?.updateQueueConcurrency(env, name, limit)] *)
Definition updateQueueConcurrency (env : AuthenticatedEnvironment) (name : string)
    (limit : Z) : M unit :=
  modify (set_marqs (λ calls, calls ++ [
    {| cu_env := env; cu_queue := name; cu_limit := limit |}])).

(** The body of the loop of [createBackgroundTasks]. *)
Definition createBackgroundTask (worker : BackgroundWorker)
    (env : AuthenticatedEnvironment) (task : TaskResource) : M unit :=
  taskFriendlyId ← generateFriendlyId "task";
  backgroundWorkerTask_create taskFriendlyId worker task ;;
  queueFriendlyId ← generateFriendlyId "queue";
  taskQueue ← taskQueue_upsert queueFriendlyId worker task;
  match truthy_number (tq_concurrencyLimit taskQueue) with
  | Some limit => updateQueueConcurrency env (tq_name taskQueue) limit
  | None => mret tt
  end.

Definition createBackgroundTasks (tasks : list TaskResource) (worker : BackgroundWorker)
    (env : AuthenticatedEnvironment) : M unit :=
  for_of tasks (createBackgroundTask worker env).

(** [CreateBackgroundWorkerService.call] *)
Definition call (projectRef : string) (environment : AuthenticatedEnvironment)
    (body : RequestBody) : M BackgroundWorker :=
  '(project, project_backgroundWorkers) ←
    project_findUniqueOrThrow projectRef (env_id environment);
  let latestBackgroundWorker := head project_backgroundWorkers in
  let create : M BackgroundWorker :=
    let nextVersion :=
      calculateNextBuildVersion imports (worker_version <$> latestBackgroundWorker) in
    workerFriendlyId ← generateFriendlyId "worker";
    backgroundWorker ←
      backgroundWorker_create workerFriendlyId nextVersion (env_id environment)
        (project_id project) (metadata body);
    createBackgroundTasks (tasks (metadata body)) backgroundWorker environment ;;
    mret backgroundWorker in
  match latestBackgroundWorker with
  | Some latest =>
      if decide (worker_contentHash latest = contentHash (metadata body))
      then mret latest
      else create
  | None => create
  end.

(** The most recent worker of the project in the environment, as [call]
    reads it. *)
Definition latest_worker (projectRef environmentId : string) (w : World)
    : option BackgroundWorker :=
  match project_findUniqueOrThrow projectRef environmentId w with
  | (Ok (_, workers), _) => head workers
  | (Throw _, _) => None
  end.

End service.

(** [latest] is the most recently created worker of the project in the
    environment: every other one has an earlier stamp. *)
Definition newest_in (project : Project) (environmentId : string) (w : World)
    (latest : BackgroundWorker) : Prop :=
  latest ∈ backgroundWorkers w
  ∧ worker_projectId latest = project_id project
  ∧ worker_runtimeEnvironmentId latest = environmentId
  ∧ ∀ bw, bw ∈ backgroundWorkers w →
          worker_projectId bw = project_id project →
          worker_runtimeEnvironmentId bw = environmentId →
          bw = latest ∨ worker_createdAt bw < worker_createdAt latest.

(** The clock of a database is ahead of every stamp it has handed out. *)
Definition wf (w : World) : Prop :=
  Forall (λ bw, worker_createdAt bw < now w) (backgroundWorkers w).

(** The workers of an environment that carry a content hash. *)
Definition workers_with_hash (environmentId hash : string) (w : World)
    : list BackgroundWorker :=
  filter (λ bw, worker_runtimeEnvironmentId bw = environmentId
                ∧ worker_contentHash bw = hash) (backgroundWorkers w).

(** The unique constraint [runtimeEnvironmentId_name] of the queue table. *)
Definition unique_queues (w : World) : Prop := NoDup (queue_key <$> taskQueues w).

(** The rows of the queue table under a key. *)
Definition queues_at (key : string * string) (w : World) : list TaskQueue :=
  filter (λ q, queue_key q = key) (taskQueues w).

(** *** A concrete instance, for the examples *)

Definition parse_decimal (s : string) : nat :=
  match DecimalString.NilZero.uint_of_string s with
  | Some d => Nat.of_uint d
  | None => 0
  end.

(** Modelled from the spec: [calculateNextBuildVersion] is imported from
    [../utils/calculateNextBuildVersion], which is not part of the sources at
    hand; the specification asks of it a strictly increasing successor of the
    latest version label. Labels are decimal numbers here, starting at 1. *)
Definition sample_calculateNextBuildVersion (latest : option string) : string :=
  match latest with
  | Some v => pretty (S (parse_decimal v))
  | None => "1"
  end.

Definition sample_imports : Imports :=
  {| friendlyId := λ prefix n, prefix +:+ "_" +:+ pretty n;
     cuid := λ n, "c" +:+ pretty n;
     calculateNextBuildVersion := sample_calculateNextBuildVersion |}.

Definition sample_environment : AuthenticatedEnvironment := {| env_id := "env_prod" |}.

Definition sample_world : World :=
  {| projects := [ {| project_id := "p1"; project_externalRef := "proj_1";
                      project_environments := ["env_prod"; "env_staging"] |} ];
     backgroundWorkers := []; backgroundWorkerTasks := []; taskQueues := [];
     now := 0; entropy := 0; marqs := Some [] |}.

Definition sample_worker : BackgroundWorker :=
  {| worker_id := "c0"; worker_friendlyId := "worker_0"; worker_version := "1";
     worker_runtimeEnvironmentId := "env_prod"; worker_projectId := "p1";
     worker_metadata := {| contentHash := "A"; packageVersion := "3.0.0";
                           cliPackageVersion := None; tasks := [] |};
     worker_contentHash := "A"; worker_cliVersion := None;
     worker_sdkVersion := "3.0.0"; worker_createdAt := 0 |}.

Definition shared_queue (limit : option Z) : QueueOptions :=
  {| queue_name := Some "shared"; queue_concurrencyLimit := limit;
     queue_rateLimit := None |}.

Definition sample_task (queue : option QueueOptions) : TaskResource :=
  {| task_id := "t1"; task_filePath := "/t1.ts"; task_exportName := "run";
     task_retry := None; task_queue := queue |}.

Definition sample_body (hash : string) (queue : option QueueOptions) : RequestBody :=
  {| metadata := {| contentHash := hash; packageVersion := "3.0.0";
                    cliPackageVersion := Some "3.0.0";
                    tasks := [sample_task queue] |} |}.

End Registry.

(** ** The deploy command of the CLI
    [packages/cli-v3/src/commands/deploy.ts] *)
Module Deploy.

(** The answers of [CliApiClient]: [{ success: true, data }] or
    [{ success: false, error }]. *)
Inductive ApiResult (A : Type) : Type :=
  | Success (data : A)
  | Failure (error : string).
Arguments Success {A} data.
Arguments Failure {A} error.

(** *** [waitForDeploymentToComplete] *)

(** The deployment as [getDeployment] reports it; the status is compared
    as a string. *)
Record Deployment : Type := {
  deployment_id : string;
  deployment_status : string
}.

(** The far end of [client.getDeployment] and the timers of the process: the
    answer to the [k]-th request, the milliseconds that request takes, and
    the milliseconds by which the timer after it overshoots. *)
Record Client : Type := {
  reply : nat → ApiResult Deployment;
  latency : nat → N;
  lag : nat → N
}.

(** The clock of the process, [Date.now()], and the times at which
    [getDeployment] has been called, oldest first. *)
Record Clock : Type := {
  time : Z;
  requests : list Z
}.

Inductive Outcome (A : Type) : Type :=
  | Returned (value : A)
  | Thrown (error : string).
Arguments Returned {A} value.
Arguments Thrown {A} error.

Section wait.
Context (client : Client).

(** [await client.getDeployment(deploymentId)]: the answer, and the clock
    once it has arrived. *)
Definition getDeployment_answer (c : Clock) : ApiResult Deployment :=
  reply client (length (requests c)).

Definition getDeployment_clock (c : Clock) : Clock :=
  {| time := time c + Z.of_N (latency client (length (requests c)));
     requests := requests c ++ [time c] |}.

(** [await setTimeout(ms)] *)
Definition setTimeout (ms : Z) (c : Clock) : Clock :=
  {| time := time c + ms + Z.of_N (lag client (length (requests c) - 1));
     requests := requests c |}.

(** What is left of the time box, in milliseconds: every round of the loop
    uses up a second of it. *)
Definition remaining (timeoutInSeconds start : Z) (c : Clock) : nat :=
  Z.to_nat (timeoutInSeconds * 1000 + 1 - (time c - start)).

(** The [while (true)] loop. *)
Equations? poll (timeoutInSeconds start : Z) (c : Clock)
    : Outcome (option Deployment) * Clock
    by wf (remaining timeoutInSeconds start c) lt :=
  poll timeoutInSeconds start c
    with decide (timeoutInSeconds * 1000 < time c - start)%Z => {
    | left _ := (Returned None, c)
    | right _ with getDeployment_answer c => {
      | Failure error := (Thrown error, getDeployment_clock c)
      | Success data with decide (deployment_status data = "DEPLOYED") => {
        | left _ := (Returned (Some data), getDeployment_clock c)
        | right _ :=
            poll timeoutInSeconds start (setTimeout 1000 (getDeployment_clock c))
        }
      }
    }.
Proof. unfold remaining. simpl. lia. Qed.

(** [timeoutInSeconds: number = 60]; the loop starts at [Date.now()]. *)
Definition waitForDeploymentToComplete (timeoutInSeconds : option Z) (c : Clock)
    : Outcome (option Deployment) * Clock :=
  poll (default 60%Z timeoutInSeconds) (time c) c.

End wait.

(** *** [arrayToSentence] *)

(** [`${undefined}`] where the array has no such element. *)
Definition template (item : option string) : string := default "undefined" item.

Definition arrayToSentence (items : list string) : string :=
  match items with
  | [x] => x
  | [x; y] => x +:+ " and " +:+ y
  | _ => join ", " (removelast items) +:+ ", and " +:+ template (last items)
  end.

(** *** [deployCommand] *)

Record DeployCommandOptions : Type := {
  skipTypecheck : bool;
  skipDeploy : bool;
  env : string;
  loadImage : bool;
  buildPlatform : string;
  selfHosted : bool;
  registry : option string;
  pushImage : bool;
  logLevel : option string
}.

Record AuthConfig : Type := { auth_apiUrl : string; auth_accessToken : string }.

(** The answer of [isLoggedIn]. *)
Inductive Authorization : Type :=
  | LoggedIn (config : AuthConfig)
  | NotLoggedIn (error : string) (apiUrl : option string).

Record ProjectEnv : Type := {
  penv_apiKey : string;
  penv_name : string;
  penv_apiUrl : string
}.

(** What [compileProject] returns. *)
Record Compilation : Type := {
  compilation_path : string;
  compilation_contentHash : string;
  compilation_envVars : list string
}.

Record ExternalBuildData : Type := {
  ebd_buildId : string;
  ebd_buildToken : string;
  ebd_projectId : string
}.

Record InitializedDeployment : Type := {
  init_id : string;
  init_version : string;
  init_imageTag : string;
  init_contentHash : string;
  init_externalBuildData : option ExternalBuildData
}.

(** [BuildAndPushImageResults] *)
Inductive ImageResult : Type :=
  | ImageOk (image : string) (digest : option string)
  | ImageFailed (error : string).

(** What the command does to the world around it, in order. *)
Inductive Event : Type :=
  | LoggerError (message : string)
  | Intro (message : string)
  | SpinnerStart (message : string)
  | SpinnerMessage (message : string)
  | SpinnerStop (message : string)
  | CompileProject
  | GetEnvironmentVariables (project : string)
  | InitializeDeployment (hash : string)
  | BuildAndPushSelfHostedImage (imageTag : string)
  | BuildAndPushImage (imageTag : string)
  | StartDeploymentIndexing (deployment imageReference : string)
  | WaitForDeploymentToComplete (deployment : string).

(** How a run of the command ends: [exit(code)], an exception, or the
    function returning, with [process.exitCode] as it was set. *)
Inductive Ending : Type :=
  | Exit (code : Z)
  | Threw (error : string)
  | Done (exitCode : option Z).

(** Everything the run gets from outside: the parsed options, the session,
    the configuration, the answers of the platform, the compilation (or
    [None] when [compileProject] exits on a failed typecheck or build), the
    variables the environment has registered on the platform and the error,
    if any, with which the request for them fails, the image build, and the
    far end and the clock of the polling. *)
Record Run : Type := {
  run_options : ApiResult DeployCommandOptions;
  run_authorization : Authorization;
  run_project : string;
  run_deploymentEnv : ApiResult ProjectEnv;
  run_compilation : option Compilation;
  run_registered : gmap string string;
  run_variables_error : option string;
  run_deploymentResponse : ApiResult InitializedDeployment;
  run_registryHost : Result string;
  run_image : ImageResult;
  run_startIndexingResponse : ApiResult unit;
  run_client : Client;
  run_clock : Clock
}.

(** [await environmentClient.getEnvironmentVariables(config.project)] *)
Definition getEnvironmentVariables (run : Run) : ApiResult (gmap string string) :=
  match run_variables_error run with
  | Some error => Failure error
  | None => Success (run_registered run)
  end.

(** The formatting the command takes from [chalk] and [terminal-link]. *)
Record Terminal : Type := {
  bgBlueBright : string → string;
  terminalLink : string → string → string
}.

(** The monad of the command: the events so far, and either a value to go
    on with or the ending. *)
Definition Cmd (A : Type) : Type := list Event * (A + Ending).

#[export] Instance Cmd_ret : MRet Cmd := λ A a, ([], inl a).
#[export] Instance Cmd_bind : MBind Cmd := λ A B f m,
  match m with
  | (events, inl a) => let '(events', r) := f a in (events ++ events', r)
  | (events, inr ending) => (events, inr ending)
  end.

Definition emit (e : Event) : Cmd unit := ([e], inl tt).
Definition finish {A} (ending : Ending) : Cmd A := ([], inr ending).

(** [compilation.envVars.filter((envVar) => variables[envVar] === undefined)] *)
Definition missingEnvironmentVariables (compilation : Compilation)
    (variables : gmap string string) : list string :=
  filter (λ envVar, variables !! envVar = None) (compilation_envVars compilation).

Section command.
Context (terminal : Terminal).

(** The closure [buildImage]. *)
Definition buildImage (run : Run) (options : DeployCommandOptions)
    (deployment : InitializedDeployment) : Cmd ImageResult :=
  if selfHosted options then
    emit (BuildAndPushSelfHostedImage (init_imageTag deployment)) ;;
    mret (run_image run)
  else
    match init_externalBuildData deployment with
    | None =>
        emit (SpinnerStop
          "Failed to initialize deployment. The deployment does not have any external build data. To deploy this project, you must use the --self-hosted flag to build and push the image yourself.") ;;
        finish (Exit 1)
    | Some _ =>
        emit (BuildAndPushImage (init_imageTag deployment)) ;;
        mret (run_image run)
    end.

Definition deployCommand (run : Run) : Cmd unit :=
  match run_options run with
  | Failure error => finish (Threw ("Invalid options: " +:+ error))
  | Success options =>
  match run_authorization run with
  | NotLoggedIn error apiUrl =>
      (if decide (error = "fetch failed") then
         emit (LoggerError ("Failed to connect to " +:+ template apiUrl
                            +:+ ". Are you sure it's the correct URL?"))
       else
         emit (LoggerError "You must login first. Use `trigger.dev login` to login.")) ;;
      finish (Done (Some 1%Z))
  | LoggedIn config =>
  match run_deploymentEnv run with
  | Failure error => finish (Threw error)
  | Success deploymentEnv =>
  emit (Intro ("Preparing to deploy " +:+ dquote +:+ penv_name deploymentEnv
               +:+ dquote +:+ " (" +:+ run_project run +:+ ") to "
               +:+ env options)) ;;
  emit CompileProject ;;
  match run_compilation run with
  | None => finish (Exit 1)
  | Some compilation =>
  emit (SpinnerStart "Checking environment variables") ;;
  emit (GetEnvironmentVariables (run_project run)) ;;
  match getEnvironmentVariables run with
  | Failure _ =>
      emit (SpinnerStop "Failed to fetch environment variables, skipping check")
  | Success variables =>
      let missing := missingEnvironmentVariables compilation variables in
      if decide (0 < length missing) then
        emit (SpinnerStop
          ("Project missing env vars: " +:+ arrayToSentence missing
           +:+ ". Aborting deployment. "
           +:+ bgBlueBright terminal
                 (terminalLink terminal "Manage env vars"
                    (auth_apiUrl config +:+ "/projects/v3/" +:+ run_project run
                     +:+ "/environment-variables")))) ;;
        finish (Exit 1)
      else
        emit (SpinnerStop "All required environment variables are present")
  end ;;
  emit (SpinnerStart "Initializing deployment") ;;
  emit (InitializeDeployment (compilation_contentHash compilation)) ;;
  match run_deploymentResponse run with
  | Failure error =>
      emit (SpinnerStop ("Failed to start deployment: " +:+ error)) ;;
      finish (Exit 1)
  | Success deployment =>
  emit (SpinnerMessage ("Deploying version " +:+ init_version deployment)) ;;
  (if decide (init_externalBuildData deployment = None ∧ selfHosted options = false)
   then
     emit (SpinnerStop
       "Failed to start deployment, as your instance of trigger.dev does not support hosting. To deploy this project, you must use the --self-hosted flag to build and push the image yourself.") ;;
     finish (Exit 1)
   else mret tt) ;;
  match run_registryHost run with
  | Throw error => finish (Threw error)
  | Ok registryHost =>
  image ← buildImage run options deployment;
  match image with
  | ImageFailed error =>
      emit (SpinnerStop ("Failed to build and push image: " +:+ error)) ;;
      finish (Exit 1)
  | ImageOk name digest =>
  let suffix := match truthy_string digest with
                | Some d => "@" +:+ d
                | None => ""
                end in
  let imageReference :=
    if selfHosted options then name +:+ suffix
    else registryHost +:+ "/" +:+ name +:+ suffix in
  (if skipDeploy options then
     emit (SpinnerStop ("Image built and pushed: " +:+ imageReference
                        +:+ ". Skipping deployment as requested")) ;;
     finish (Exit 0)
   else mret tt) ;;
  emit (SpinnerMessage (init_version deployment
                        +:+ " image built, starting indexing process")) ;;
  emit (StartDeploymentIndexing (init_id deployment) imageReference) ;;
  match run_startIndexingResponse run with
  | Failure error =>
      emit (SpinnerStop ("Failed to start indexing: " +:+ error)) ;;
      finish (Exit 1)
  | Success _ =>
  emit (WaitForDeploymentToComplete (init_id deployment)) ;;
  match (waitForDeploymentToComplete (run_client run) None (run_clock run)).1 with
  | Thrown error => finish (Threw error)
  | Returned None =>
      emit (SpinnerStop "Deployment failed to complete") ;;
      finish (Exit 1)
  | Returned (Some _) =>
      emit (SpinnerStop "Deployment completed successfully, you can now use this version")
  end end end end end end end end end.

End command.


(** An event that initializes the deployment or builds an image. *)
Definition deploys (e : Event) : Prop :=
  match e with
  | InitializeDeployment _ | BuildAndPushSelfHostedImage _ | BuildAndPushImage _ => True
  | _ => False
  end.

#[export] Instance deploys_dec e : Decision (deploys e).
Proof. destruct e; simpl; apply _. Defined.


(** *** Concrete instances, for the examples *)

Definition clock0 : Clock := {| time := 0; requests := [] |}.

(** A platform that reports the same status for ever, at once. *)
Definition always (status : string) : Client :=
  {| reply := λ _, Success {| deployment_id := "dep_1"; deployment_status := status |};
     latency := λ _, 0%N;
     lag := λ _, 0%N |}.

(** A platform whose [n]-th answer is a failure. *)
Definition failing_at (n : nat) (error : string) : Client :=
  {| reply := λ k, if decide (k = n) then Failure error
                   else Success {| deployment_id := "dep_1";
                                   deployment_status := "DEPLOYING" |};
     latency := λ _, 20%N;
     lag := λ _, 1%N |}.

Definition sample_terminal : Terminal :=
  {| bgBlueBright := λ text, text;
     terminalLink := λ text url, text +:+ " (" +:+ url +:+ ")" |}.

Definition sample_options : DeployCommandOptions :=
  {| skipTypecheck := false; skipDeploy := false; env := "prod"; loadImage := false;
     buildPlatform := "linux/amd64"; selfHosted := false; registry := None;
     pushImage := false; logLevel := Some "log" |}.

(** A run in which everything outside the command succeeds, but for the
    request for the variables of the environment when [error] is given; the
    bundle refers to [envVars] and the environment has registered
    [variables]. *)
Definition sample_run (envVars : list string) (variables : gmap string string)
    (error : option string) : Run :=
  {| run_options := Success sample_options;
     run_authorization :=
       LoggedIn {| auth_apiUrl := "https://api.trigger.dev";
                   auth_accessToken := "tr_pat_1" |};
     run_project := "proj_1";
     run_deploymentEnv :=
       Success {| penv_apiKey := "tr_prod_1"; penv_name := "My project";
                  penv_apiUrl := "https://api.trigger.dev" |};
     run_compilation :=
       Some {| compilation_path := "/tmp/build"; compilation_contentHash := "abc";
               compilation_envVars := envVars |};
     run_registered := variables;
     run_variables_error := error;
     run_deploymentResponse :=
       Success {| init_id := "dep_1"; init_version := "20240306.1";
                  init_imageTag := "proj_1:20240306.1.prod";
                  init_contentHash := "abc";
                  init_externalBuildData :=
                    Some {| ebd_buildId := "b1"; ebd_buildToken := "t1";
                            ebd_projectId := "d1" |} |};
     run_registryHost := Ok "api.trigger.dev";
     run_image := ImageOk "proj_1:20240306.1.prod" None;
     run_startIndexingResponse := Success tt;
     run_client := always "DEPLOYED";
     run_clock := clock0 |}.

End Deploy.

(** ** The build of the deploy command: dependencies and content hash
    [compileProject] and [gatherRequiredDependencies] in
    [packages/cli-v3/src/commands/deploy.ts] *)
Module Build.

(** *** JavaScript objects used as records of strings

    The own properties in the order they were added, no key twice. *)
Definition JsObject : Type := list (string * string).

(** [o[k]] *)
Fixpoint obj_get (o : JsObject) (k : string) : option string :=
  match o with
  | [] => None
  | (k', v) :: o' => if decide (k' = k) then Some v else obj_get o' k
  end.

(** [o[k] = v]: an existing property keeps its place. *)
Fixpoint obj_set (k v : string) (o : JsObject) : JsObject :=
  match o with
  | [] => [(k, v)]
  | (k', v') :: o' =>
      if decide (k' = k) then (k, v) :: o' else (k', v') :: obj_set k v o'
  end.

(** The array index a property key stands for, if any: the canonical
    decimal numerals below [2^32 - 1]. *)
Definition array_index (k : string) : option N :=
  match NilEmpty.uint_of_string k with
  | Some d =>
      let n := N.of_uint d in
      if decide (NilEmpty.string_of_uint (N.to_uint n) = k ∧ (n < 4294967295)%N)
      then Some n else None
  | None => None
  end.

(** [Array.prototype.sort] with a comparison function: a stable sort; the
    element [x] goes before [y] when [compare x y ≤ 0]. *)
Fixpoint sort_insert {A} (compare : A → A → Z) (x : A) (sorted : list A) : list A :=
  match sorted with
  | [] => [x]
  | y :: sorted' =>
      if decide (compare x y ≤ 0)%Z then x :: y :: sorted'
      else y :: sort_insert compare x sorted'
  end.

Definition sort {A} (compare : A → A → Z) (l : list A) : list A :=
  foldr (sort_insert compare) [] l.

(** The order in which an object lists its own properties: array indices
    first, in ascending order, then the other keys as they were added. *)
Definition index_of (entry : string * string) : Z :=
  Z.of_N (default 0%N (array_index entry.1)).

Definition own_properties (o : JsObject) : list (string * string) :=
  sort (λ a b, index_of a - index_of b)%Z
       (filter (λ entry, is_Some (array_index entry.1)) o)
  ++ filter (λ entry, ¬ is_Some (array_index entry.1)) o.

(** [Object.entries(o)] *)
Definition entries (o : JsObject) : list (string * string) := own_properties o.

(** [Object.fromEntries(es)] *)
Definition fromEntries (es : list (string * string)) : JsObject :=
  foldl (λ o entry, obj_set entry.1 entry.2 o) [] es.

(** *** What the build takes from the runtime and from other files

    The SHA-256 hasher of [node:crypto] ([update] takes the text, which the
    code turns into a buffer), [String.prototype.localeCompare], the JSON
    rendering of a string, [detectPackageNameFromImportPath] of
    [../utilities/installPackages], and the dependencies of the
    [package.json] of the CLI itself. *)
Record Runtime : Type := {
  Hash : Type;
  createHash : Hash;
  update : Hash → string → Hash;
  digest : Hash → string;
  localeCompare : string → string → Z;
  quote : string → string;
  detectPackageNameFromImportPath : string → string;
  packageJson_dependencies : gmap string string
}.

(** An entry of [Metafile["outputs"][string]["imports"]]. *)
Record Import : Type := {
  import_path : string;
  import_kind : string;
  import_external : option bool
}.

(** The [package.json] of the project, as far as it is read. *)
Record PackageJson : Type := { dependencies : option (gmap string string) }.

Section build.
Context (runtime : Runtime).

(** [file.kind !== "require-call" || !file.external] is false. *)
Definition required (file : Import) : Prop :=
  import_kind file = "require-call" ∧ import_external file = Some true.

#[export] Instance required_dec file : Decision (required file).
Proof. unfold required. apply _. Defined.

(** [(externalPackageJson?.dependencies ?? {})[packageName]] *)
Definition external_version (externalPackageJson : option PackageJson)
    (packageName : string) : option string :=
  default ∅ (externalPackageJson ≫= dependencies) !! packageName.

(** One round of the loop of [gatherRequiredDependencies]. *)
Definition gather (externalPackageJson : option PackageJson)
    (dependencies : JsObject) (file : Import) : JsObject :=
  if decide (required file) then
    let packageName := detectPackageNameFromImportPath runtime (import_path file) in
    match truthy_string (obj_get dependencies packageName) with
    | Some _ => dependencies
    | None =>
        match truthy_string (external_version externalPackageJson packageName) with
        | Some externalDependencyVersion =>
            obj_set packageName externalDependencyVersion dependencies
        | None =>
            match truthy_string (packageJson_dependencies runtime !! packageName) with
            | Some internalDependencyVersion =>
                obj_set packageName internalDependencyVersion dependencies
            | None => dependencies
            end
        end
    end
  else dependencies.

Definition gatherRequiredDependencies (imports : list Import)
    (externalPackageJson : option PackageJson) : JsObject :=
  foldl (gather externalPackageJson) [] imports.

(** [JSON.stringify] of an object whose values are strings. *)
Definition stringify (o : JsObject) : string :=
  "{" +:+ join "," ((λ entry, quote runtime entry.1 +:+ ":" +:+ quote runtime entry.2)
                      <$> own_properties o) +:+ "}".

(** The comparison function [([a], [b]) => a.localeCompare(b)]. *)
Definition by_key (a b : string * string) : Z := localeCompare runtime a.1 b.1.

(** The content hash of [compileProject]. *)
Definition contentHash (entryPointText workerText : string) (dependencies : JsObject)
    : string :=
  let contentHasher := createHash runtime in
  let contentHasher := update runtime contentHasher entryPointText in
  let contentHasher := update runtime contentHasher workerText in
  let sortedDependencies := fromEntries (sort by_key (entries dependencies)) in
  let contentHasher := update runtime contentHasher (stringify sortedDependencies) in
  digest runtime contentHasher.

(** The version the loop settles on for a package: that of the project if
    it has a non-empty one, else that of the CLI if it has a non-empty one. *)
Definition pinned (externalPackageJson : option PackageJson) (packageName : string)
    : option string :=
  match truthy_string (external_version externalPackageJson packageName) with
  | Some v => Some v
  | None => truthy_string (packageJson_dependencies runtime !! packageName)
  end.

(** What holds of the object once the loop has gone through [seen]: no key
    twice, and a package is listed, with its pinned version, exactly when
    an external [require] call among [seen] belongs to it and a version is
    pinned for it. *)
Definition gathered (externalPackageJson : option PackageJson) (seen : list Import)
    (o : JsObject) : Prop :=
  NoDup o.*1
  ∧ ∀ p v, obj_get o p = Some v
           ↔ (∃ file, file ∈ seen ∧ required file
                      ∧ detectPackageNameFromImportPath runtime (import_path file) = p)
             ∧ pinned externalPackageJson p = Some v.

End build.

(** The order a comparison function sorts by. *)
Definition before {A} (compare : A → A → Z) (a b : A) : Prop := (compare a b ≤ 0)%Z.

(** What is asked of [localeCompare] on package names: a consistent
    comparison function, as ECMAScript requires of it. *)
Definition consistent (compare : string → string → Z) : Prop :=
  (∀ a b, (compare a b ≤ 0)%Z ∨ (compare b a ≤ 0)%Z)
  ∧ (∀ a b c, (compare a b ≤ 0)%Z → (compare b c ≤ 0)%Z → (compare a c ≤ 0)%Z).

(** No two keys of the object collate as equal. *)
Definition distinguishes (compare : string → string → Z) (o : JsObject) : Prop :=
  ∀ a b, a ∈ o.*1 → b ∈ o.*1 → (compare a b ≤ 0)%Z → (compare b a ≤ 0)%Z → a = b.

(** *** A concrete runtime, for the examples *)

(** The code units of a string. *)
Definition code_units (s : string) : list nat :=
  Ascii.nat_of_ascii <$> String.list_ascii_of_string s.

(** Comparison by code units. *)
Definition sample_localeCompare (a b : string) : Z :=
  match trichotomyT lexico (code_units a) (code_units b) with
  | inleft (left _) => (-1)%Z
  | inleft (right _) => 0%Z
  | inright _ => 1%Z
  end.

(** The first segment of an import path, or the first two for a scoped
    package. *)
Fixpoint segment (s : string) : string * option string :=
  match s with
  | EmptyString => ("", None)
  | String c rest =>
      if decide (c = "/"%char) then ("", Some rest)
      else let '(head, tail) := segment rest in (String c head, tail)
  end.

(** A stand-in, for the examples, for [detectPackageNameFromImportPath] of
    [../utilities/installPackages], which is not part of the sources at
    hand: the package an import path such as [lodash/fp] or
    [@scope/pkg/file] belongs to. *)
Definition sample_detectPackageNameFromImportPath (path : string) : string :=
  match segment path with
  | (head, Some rest) =>
      if decide (String.get 0 head = Some "@"%char)
      then head +:+ "/" +:+ (segment rest).1
      else head
  | (head, None) => head
  end.

(** A hasher that keeps what it was fed, in place of SHA-256. *)
Definition sample_runtime : Runtime :=
  {| Hash := string;
     createHash := "";
     update := λ h text, h +:+ "|" +:+ text;
     digest := λ h, h;
     localeCompare := sample_localeCompare;
     quote := λ text, dquote +:+ text +:+ dquote;
     detectPackageNameFromImportPath := sample_detectPackageNameFromImportPath;
     packageJson_dependencies :=
       {[ "@trigger.dev/core" := "3.0.0"; "zod" := "3.22.3" ]} |}.

Definition require_call (path : string) : Import :=
  {| import_path := path; import_kind := "require-call"; import_external := Some true |}.

Definition sample_packageJson : option PackageJson :=
  Some {| dependencies := Some {[ "zod" := "3.21.0"; "lodash" := "4.17.21" ]} |}.

End Build.

(** ** The message catalogues
    [packages/core/src/v3/schemas/schemas.ts] *)
Module Schemas.

(** *** The zod combinators the catalogues are written with *)

#[warnings="-register-all"]
Inductive Schema : Type :=
  | ZString
  | ZNumber
  | ZBoolean
  | ZAny
  | ZVoid
  | ZLiteral (value : string)
  | ZLiteralBool (value : bool)
  | ZEnum (values : list string)
  | ZOptional (inner : Schema)
  | ZDefault (inner : Schema) (value : Json)
  | ZArray (item : Schema)
  | ZObject (shape : list (string * Schema))
  | ZDiscriminatedUnion (discriminator : string) (options : list Schema)
  | ZImported (name : string).

(** [input[key]] on a parsed JSON object; [None] is [undefined]. *)
Fixpoint field (key : string) (fields : list (string * Json)) : option Json :=
  match fields with
  | [] => None
  | (k, v) :: rest => if decide (k = key) then Some v else field key rest
  end.

Fixpoint shape_field (key : string) (shape : list (string * Schema)) : option Schema :=
  match shape with
  | [] => None
  | (k, s) :: rest => if decide (k = key) then Some s else shape_field key rest
  end.

(** Whether an option of a discriminated union is the one for the value
    found under the discriminator. *)
Definition discriminates (discriminator : string) (option : Schema) (value : Json)
    : bool :=
  match option with
  | ZObject shape =>
      match shape_field discriminator shape, value with
      | Some (ZLiteral s), JStr s' => bool_decide (s = s')
      | Some (ZLiteralBool b), JBool b' => bool_decide (b = b')
      | _, _ => false
      end
  | _ => false
  end.

Section parse.
(** The parsers of the schemas that are imported from [./common],
    [./messages] and [./resources]. *)
Context (imported : string → option Json → option (option Json)).

(** [schema.safeParse(input)]: [None] when the input is rejected, otherwise
    the parsed value, which is [undefined] ([Some None]) or a document.
    Objects drop the keys their shape does not name. *)
Fixpoint parse (schema : Schema) (input : option Json) {struct schema}
    : option (option Json) :=
  match schema with
  | ZString => match input with Some (JStr s) => Some (Some (JStr s)) | _ => None end
  | ZNumber => match input with Some (JNum n) => Some (Some (JNum n)) | _ => None end
  | ZBoolean => match input with Some (JBool b) => Some (Some (JBool b)) | _ => None end
  | ZAny => Some input
  | ZVoid => match input with None => Some None | Some _ => None end
  | ZLiteral value =>
      match input with
      | Some (JStr s) => if decide (s = value) then Some (Some (JStr s)) else None
      | _ => None
      end
  | ZLiteralBool value =>
      match input with
      | Some (JBool b) => if decide (b = value) then Some (Some (JBool b)) else None
      | _ => None
      end
  | ZEnum values =>
      match input with
      | Some (JStr s) => if decide (s ∈ values) then Some (Some (JStr s)) else None
      | _ => None
      end
  | ZOptional inner =>
      match input with
      | None => Some None
      | Some _ => parse inner input
      end
  | ZDefault inner value =>
      match input with
      | None => parse inner (Some value)
      | Some _ => parse inner input
      end
  | ZArray item =>
      match input with
      | Some (JArr items) =>
          (fix parse_items (items : list Json) : option (list Json) :=
             match items with
             | [] => Some []
             | x :: rest =>
                 match parse item (Some x), parse_items rest with
                 | Some (Some y), Some ys => Some (y :: ys)
                 | _, _ => None
                 end
             end) items ≫= λ ys, Some (Some (JArr ys))
      | _ => None
      end
  | ZObject shape =>
      match input with
      | Some (JObj fields) =>
          (fix parse_shape (shape : list (string * Schema))
               : option (list (string * Json)) :=
             match shape with
             | [] => Some []
             | (key, s) :: rest =>
                 match parse s (field key fields), parse_shape rest with
                 | Some (Some v), Some out => Some ((key, v) :: out)
                 | Some None, Some out => Some out
                 | _, _ => None
                 end
             end) shape ≫= λ out, Some (Some (JObj out))
      | _ => None
      end
  | ZDiscriminatedUnion discriminator options =>
      match input with
      | Some (JObj fields) =>
          match field discriminator fields with
          | Some value =>
              (fix parse_option (options : list Schema) : option (option Json) :=
                 match options with
                 | [] => None
                 | option :: rest =>
                     if discriminates discriminator option value
                     then parse option input
                     else parse_option rest
                 end) options
          | None => None
          end
      | _ => None
      end
  | ZImported name => imported name input
  end.

End parse.

(** *** The catalogues *)

Record MessageDef : Type := {
  message : Schema;
  callback : option Schema
}.

Definition Catalogue : Type := list (string * MessageDef).

(** [z.literal("v1").default("v1")] *)
Definition literal_v1_default_v1 : Schema := ZDefault (ZLiteral "v1") (JStr "v1").

Definition Machine : Schema :=
  ZObject [ ("cpu", ZOptional (ZDefault ZString (JStr "1")));
            ("memory", ZOptional (ZDefault ZString (JStr "500Mi"))) ].



Definition CoordinatorToPlatformMessages : Catalogue :=
  [ ("LOG",
     {| message := ZObject [ ("version", literal_v1_default_v1);
                             ("metadata", ZAny); ("text", ZString) ];
        callback := None |});
    ("CREATE_WORKER",
     {| message := ZObject [ ("version", literal_v1_default_v1);
                             ("projectRef", ZString); ("envId", ZString);
                             ("deploymentId", ZString);
                             ("metadata",
                              ZObject [ ("cliPackageVersion", ZOptional ZString);
                                        ("contentHash", ZString);
                                        ("packageVersion", ZString);
                                        ("tasks", ZArray (ZImported "TaskResource")) ]) ];
        callback := Some (ZDiscriminatedUnion "success"
                            [ ZObject [ ("success", ZLiteralBool false) ];
                              ZObject [ ("success", ZLiteralBool true) ] ]) |});
    ("READY_FOR_EXECUTION",
     {| message := ZObject [ ("version", literal_v1_default_v1);
                             ("attemptId", ZString) ];
        callback := Some (ZDiscriminatedUnion "success"
                            [ ZObject [ ("success", ZLiteralBool false) ];
                              ZObject [ ("success", ZLiteralBool true);
                                        ("payload",
                                         ZImported "ProdTaskRunExecutionPayload") ] ]) |});
    ("TASK_RUN_COMPLETED",
     {| message := ZObject [ ("version", literal_v1_default_v1);
                             ("execution", ZImported "ProdTaskRunExecution");
                             ("completion", ZImported "TaskRunExecutionResult") ];
        callback := None |});
    ("TASK_HEARTBEAT",
     {| message := ZObject [ ("version", literal_v1_default_v1);
                             ("attemptFriendlyId", ZString) ];
        callback := None |});
    ("CHECKPOINT_CREATED",
     {| message := ZObject [ ("version", literal_v1_default_v1);
                             ("attemptId", ZString); ("docker", ZBoolean);
                             ("location", ZString);
                             ("reason", ZOptional ZString) ];
        callback := None |}) ].








(** *** What the specification says of a message and of a callback *)




(** The loop of [parse] over the shape of an object. *)
Definition parse_shape (imported : string → option Json → option (option Json))
    (fields : list (string * Json)) : list (string * Schema) → option (list (string * Json)) :=
  fix parse_shape (shape : list (string * Schema)) : option (list (string * Json)) :=
    match shape with
    | [] => Some []
    | (key, s) :: rest =>
        match parse imported s (field key fields), parse_shape rest with
        | Some (Some v), Some out => Some ((key, v) :: out)
        | Some None, Some out => Some out
        | _, _ => None
        end
    end.

(** The parsers of the imported schemas are of no account for the
    examples: one that takes everything as it comes. *)
Definition sample_imported (name : string) (input : option Json) : option (option Json) :=
  Some input.

End Schemas.

(** ** Scanning text
    [findAllEnvironmentVariableReferences] and [extractImageDigest] in
    [packages/cli-v3/src/commands/deploy.ts] *)
Module Scan.

(** A string, character by character. A character outside ASCII is no name
    character and no digit, in whatever units it is encoded. *)
Definition Text : Type := list ascii.

Definition text (s : string) : Text := String.list_ascii_of_string s.

(** *** Character classes *)

(** A range [lo-hi] of a character class. *)
Definition in_range (lo hi c : ascii) : bool :=
  (N_of_ascii lo <=? N_of_ascii c)%N && (N_of_ascii c <=? N_of_ascii hi)%N.

(** [[a-zA-Z_]] *)
Definition name_start (c : ascii) : bool :=
  in_range "a" "z" c || in_range "A" "Z" c || bool_decide (c = "_"%char).

(** [[a-zA-Z0-9_]], which is also the class [\w] of the word boundaries. *)
Definition name_char (c : ascii) : bool :=
  in_range "a" "z" c || in_range "A" "Z" c || in_range "0" "9" c
  || bool_decide (c = "_"%char).

(** [[a-f0-9]] *)
Definition hex (c : ascii) : bool := in_range "a" "f" c || in_range "0" "9" c.

(** [\b] between two characters, either of which may be missing at an end
    of the text. *)
Definition boundary (before after : option ascii) : bool :=
  xorb (from_option name_char false before) (from_option name_char false after).

(** *** The regular expression of the references *)

(** The text after a literal, where the text begins with it. *)
Fixpoint after_literal (literal code : Text) : option Text :=
  match literal, code with
  | [], _ => Some code
  | l :: literal', c :: code' =>
      if decide (l = c) then after_literal literal' code' else None
  | _ :: _, [] => None
  end.

(** [[a-zA-Z0-9_]*\b] after the character [before]: the star takes as many
    characters as it can and gives them back one by one until a word
    boundary follows. *)
Fixpoint name_tail (before : ascii) (code : Text) : option Text :=
  match code with
  | c :: code' =>
      if name_char c then
        match name_tail c code' with
        | Some tail => Some (c :: tail)
        | None => if boundary (Some before) (Some c) then Some [] else None
        end
      else if boundary (Some before) (Some c) then Some [] else None
  | [] => if boundary (Some before) None then Some [] else None
  end.

Definition process_env : Text := text "process.env.".

(** A match of the regular expression (a word boundary, [process.env.],
    the group of [[a-zA-Z_]] and [[a-zA-Z0-9_]*], a word boundary) that
    begins where [code] begins, after the character [before]: what the group
    captures. *)
Definition match_here (before : option ascii) (code : Text) : option Text :=
  if boundary before (head code) then
    match after_literal process_env code with
    | Some (c :: code') =>
        if name_start c then (c ::.) <$> name_tail c code' else None
    | _ => None
    end
  else None.

(** [Array.from(code.matchAll(regex), (match) => match[1])]: the engine
    looks for a match at each position from left to right, and after a
    match goes on where the match ended; [skip] counts the characters of the
    last match that are still to be passed over. *)
Fixpoint matchAll (skip : nat) (before : option ascii) (code : Text) : list Text :=
  match code with
  | [] => []
  | c :: code' =>
      match skip with
      | S skip' => matchAll skip' (Some c) code'
      | 0 =>
          match match_here before code with
          | Some name =>
              name :: matchAll (length process_env + length name - 1) (Some c) code'
          | None => matchAll 0 (Some c) code'
          end
      end
  end.

(** [Array.from(new Set(items))]: the items in the order in which they
    first come. *)
Definition Set_from {A} `{EqDecision A} (items : list A) : list A :=
  foldl (λ set item, if decide (item ∈ set) then set else set ++ [item]) [] items.

Definition findAllEnvironmentVariableReferences (code : string) : list string :=
  let matches := matchAll 0 None (text code) in
  let matchesArray :=
    filter (λ name, name ≠ "") (String.string_of_list_ascii <$> matches) in
  Set_from matchesArray.

(** *** The digest of the image *)

(** [line.includes(needle)] *)
Fixpoint includes (needle line : Text) : bool :=
  match after_literal needle line with
  | Some _ => true
  | None => match line with
            | [] => false
            | _ :: line' => includes needle line'
            end
  end.

(** A match of [/sha256:[a-f0-9]{64}/] that begins where [line] begins. *)
Definition digest_here (line : Text) : option Text :=
  match after_literal (text "sha256:") line with
  | Some rest =>
      let digits := take 64 rest in
      if decide (length digits = 64 ∧ forallb hex digits = true)
      then Some (text "sha256:" ++ digits) else None
  | None => None
  end.

(** [line.match(regex)]: the leftmost match. *)
Fixpoint match_digest (line : Text) : option Text :=
  match digest_here line with
  | Some found => Some found
  | None => match line with
            | [] => None
            | _ :: line' => match_digest line'
            end
  end.

Fixpoint extractImageDigest (outputs : list string) : option string :=
  match outputs with
  | [] => None
  | line :: outputs' =>
      if includes (text "pushing manifest") (text line) then
        match match_digest (text line) with
        | Some imageDigestMatch => Some (String.string_of_list_ascii imageDigestMatch)
        | None => extractImageDigest outputs'
        end
      else extractImageDigest outputs'
  end.

(** *** The variables of [compileProject] *)

(** [finalEnvVars]: the references of the bundle that are neither in the
    worker facade nor in the tracing set-up. *)
Definition finalEnvVars (workerOutputText workerContents registerTracing : string)
    : list string :=
  let registerTracingEnvVars := findAllEnvironmentVariableReferences registerTracing in
  let workerFacadeEnvVars := findAllEnvironmentVariableReferences workerContents in
  let envVars := findAllEnvironmentVariableReferences workerOutputText in
  filter (λ envVar, (envVar ∉ workerFacadeEnvVars) ∧ (envVar ∉ registerTracingEnvVars))
         envVars.

(** *** Notions for the properties *)

(** A name as the regular expression captures it. *)
Definition identifier (name : Text) : Prop :=
  ∃ c tail, name = c :: tail ∧ name_start c = true ∧ forallb name_char tail = true.

(** One string occurs in another. *)
Definition occurs_in (needle code : string) : Prop :=
  ∃ pre post, code = pre +:+ needle +:+ post.

(** A reference to the variable [name] stands in [code] between [pre] and
    [post], as a word of its own. *)
Definition reference_at (code pre name post : string) : Prop :=
  code = pre +:+ "process.env." +:+ name +:+ post
  ∧ identifier (text name)
  ∧ from_option name_char false (last (text pre)) = false
  ∧ from_option name_char false (head (text post)) = false.

(** A digest as the regular expression matches it. *)
Definition sha256_digest (digest : string) : Prop :=
  ∃ digits, digest = "sha256:" +:+ digits
            ∧ length (text digits) = 64
            ∧ forallb hex (text digits) = true.

(** The longest run of name characters at the beginning of a text. *)
Fixpoint name_run (code : Text) : Text :=
  match code with
  | c :: code' => if name_char c then c :: name_run code' else []
  | [] => []
  end.

(** The scan is [skip] characters before the end of a match. *)
Definition inside (seen : Text) (skip : nat) (code : Text) : Prop :=
  skip = 0
  ∨ ∃ pre name post k,
      seen = pre ++ take k (process_env ++ name)
      ∧ code = drop k (process_env ++ name) ++ post
      ∧ skip + k = length (process_env ++ name)
      ∧ 1 ≤ k
      ∧ forallb name_char name = true.

End Scan.


(** ** Further notions, for the properties of the registry *)
Module RegistryNotions.
Import Registry.

(** The task row that a round of the loop of [createBackgroundTasks] writes
    for a task of a worker. *)
Definition written_for (worker : BackgroundWorker) (task : TaskResource)
    (row : BackgroundWorkerTask) : Prop :=
  bwt_slug row = task_id task
  ∧ bwt_workerId row = worker_id worker
  ∧ bwt_runtimeEnvironmentId row = worker_runtimeEnvironmentId worker
  ∧ bwt_projectId row = worker_projectId worker
  ∧ bwt_filePath row = task_filePath task
  ∧ bwt_exportName row = task_exportName task
  ∧ bwt_retryConfig row = task_retry task
  ∧ bwt_queueConfig row = task_queue task.

(** The worker row that [call] writes for a body, after [latest]. *)
Definition created_from (imports : Imports) (environment : AuthenticatedEnvironment)
    (project : Project) (body : RequestBody) (latest : option BackgroundWorker)
    (worker : BackgroundWorker) : Prop :=
  worker_version worker
  = calculateNextBuildVersion imports (worker_version <$> latest)
  ∧ worker_runtimeEnvironmentId worker = env_id environment
  ∧ worker_projectId worker = project_id project
  ∧ worker_metadata worker = metadata body
  ∧ worker_contentHash worker = contentHash (metadata body)
  ∧ worker_cliVersion worker = cliPackageVersion (metadata body)
  ∧ worker_sdkVersion worker = packageVersion (metadata body).

(** The workers of an environment. *)
Definition workers_of (environmentId : string) (w : World) : list BackgroundWorker :=
  filter (λ bw, worker_runtimeEnvironmentId bw = environmentId) (backgroundWorkers w).

(** A world in which the queue [shared] of the sample environment exists
    with a limit. *)
Definition world_with_shared (limit : option Z) : World :=
  {| projects := projects sample_world;
     backgroundWorkers := []; backgroundWorkerTasks := [];
     taskQueues := [ {| tq_friendlyId := "queue_0"; tq_name := "shared";
                        tq_concurrencyLimit := limit;
                        tq_runtimeEnvironmentId := "env_prod";
                        tq_projectId := "p1"; tq_rateLimit := None;
                        tq_type := NAMED |} ];
     now := 0; entropy := 1; marqs := Some [] |}.

End RegistryNotions.

(** ** Further notions, for the properties of the deploy command *)
Module DeployNotions.
Import Deploy.

(** The time that [count] rounds of the polling loop take, from the request
    numbered [first] on: for each, the request, the 1000 ms of the timer and
    the overshoot of the timer. *)
Fixpoint rounds (client : Client) (first count : nat) : Z :=
  match count with
  | 0 => 0
  | S count' =>
      Z.of_N (latency client first) + 1000 + Z.of_N (lag client first)
      + rounds client (S first) count'
  end.

(** The events that reach the compiler, the platform or the image builder. *)
Definition is_step (e : Event) : Prop :=
  match e with
  | CompileProject | GetEnvironmentVariables _ | InitializeDeployment _
  | BuildAndPushSelfHostedImage _ | BuildAndPushImage _
  | StartDeploymentIndexing _ _ | WaitForDeploymentToComplete _ => True
  | _ => False
  end.

#[export] Instance is_step_dec e : Decision (is_step e).
Proof. destruct e; simpl; apply _. Defined.

Definition steps (events : list Event) : list Event := filter is_step events.

(** The content hash and the deployment that the steps of a run carry:
    those of its compilation and of the deployment the platform
    initialized, where there are such. *)
Definition hash_of (run : Run) : string :=
  from_option compilation_contentHash "" (run_compilation run).

Definition deployment_of (run : Run) : option InitializedDeployment :=
  match run_deploymentResponse run with
  | Success deployment => Some deployment
  | Failure _ => None
  end.

Definition pipeline_of (run : Run) (build : Event) (imageReference : string)
    : list Event :=
  [ CompileProject;
    GetEnvironmentVariables (run_project run);
    InitializeDeployment (hash_of run);
    build;
    StartDeploymentIndexing (from_option init_id "" (deployment_of run)) imageReference;
    WaitForDeploymentToComplete (from_option init_id "" (deployment_of run)) ].

(** The events with which the command builds an image for the deployment
    of the run. *)
Definition builds_for (run : Run) (build : Event) : Prop :=
  build = BuildAndPushSelfHostedImage (from_option init_imageTag "" (deployment_of run))
  ∨ build = BuildAndPushImage (from_option init_imageTag "" (deployment_of run)).

(** A platform that reports [DEPLOYED] from the [n]-th answer on. *)
Definition deployed_at (n : nat) : Client :=
  {| reply := λ k, Success {| deployment_id := "dep_1";
                              deployment_status :=
                                if decide (k < n) then "DEPLOYING" else "DEPLOYED" |};
     latency := λ _, 20%N;
     lag := λ _, 1%N |}.

(** The options of the sample run, with [--skip-deploy]. *)
Definition skipping_options : DeployCommandOptions :=
  {| skipTypecheck := false; skipDeploy := true; env := "prod"; loadImage := false;
     buildPlatform := "linux/amd64"; selfHosted := false; registry := None;
     pushImage := false; logLevel := Some "log" |}.

(** A run like the sample one, with other options and another platform to
    poll. *)
Definition sample_run_with (options : DeployCommandOptions) (client : Client) : Run :=
  let run := sample_run [] ∅ None in
  {| run_options := Success options;
     run_authorization := run_authorization run;
     run_project := run_project run;
     run_deploymentEnv := run_deploymentEnv run;
     run_compilation := run_compilation run;
     run_registered := run_registered run;
     run_variables_error := run_variables_error run;
     run_deploymentResponse := run_deploymentResponse run;
     run_registryHost := run_registryHost run;
     run_image := run_image run;
     run_startIndexingResponse := run_startIndexingResponse run;
     run_client := client;
     run_clock := run_clock run |}.

(** The step that starts the indexing of a deployment. *)
Definition starts_indexing (e : Event) : Prop :=
  match e with StartDeploymentIndexing _ _ => True | _ => False end.

#[export] Instance starts_indexing_dec e : Decision (starts_indexing e).
Proof. destruct e; simpl; apply _. Defined.

(** The step that builds an image. *)
Definition builds_image (e : Event) : Prop :=
  match e with
  | BuildAndPushSelfHostedImage _ | BuildAndPushImage _ => True
  | _ => False
  end.

#[export] Instance builds_image_dec e : Decision (builds_image e).
Proof. destruct e; simpl; apply _. Defined.

End DeployNotions.

(** ** Further notions, for the properties of the build *)
Module BuildNotions.
Import Build.

(** The content hash as [compileProject] computes it from the two bundles:
    over the dependencies gathered from the imports of both. *)
Definition compile_contentHash (runtime : Runtime) (entryPointText workerText : string)
    (metaOutput_imports entryPointMetaOutput_imports : list Import)
    (projectPackageJson : option PackageJson) : string :=
  let allImports := metaOutput_imports ++ entryPointMetaOutput_imports in
  let dependencies := gatherRequiredDependencies runtime allImports projectPackageJson in
  contentHash runtime entryPointText workerText dependencies.

(** What [JSON.stringify(sortedDependencies)] lists, in its order. *)
Definition listed (runtime : Runtime) (dependencies : JsObject) : list (string * string) :=
  own_properties (fromEntries (sort (by_key runtime) (entries dependencies))).

End BuildNotions.

(* ===== properties: registry ===== *)
Module RegistryFacts.
Import Registry.

Section facts.
Context (imports : Imports).

Ltac run := unfold mbind, M_bind, mret, M_ret, get, modify, throw; simpl.

(** **** The order of [createdAt] *)

#[local] Instance createdAt_desc_trans : Transitive createdAt_desc.
Proof. unfold createdAt_desc. intros a b c ? ?. lia. Qed.

#[local] Instance createdAt_desc_total : Total createdAt_desc.
Proof. unfold createdAt_desc. intros a b. lia. Qed.

(** A row stamped after all the others comes first when sorted. *)
Lemma strictly_newest_first (row : BackgroundWorker) (rows : list BackgroundWorker) :
  row ∈ rows →
  (∀ bw, bw ∈ rows → bw = row ∨ worker_createdAt bw < worker_createdAt row) →
  head (merge_sort createdAt_desc rows) = Some row.
Proof.
  intros Hin Hold.
  pose proof (merge_sort_Permutation createdAt_desc rows) as Hperm.
  pose proof (StronglySorted_merge_sort createdAt_desc rows) as Hsort.
  destruct (merge_sort createdAt_desc rows) as [|x sorted] eqn:E.
  { apply Permutation_nil_l in Hperm. subst rows. by apply elem_of_nil in Hin. }
  simpl. f_equal.
  assert (Hx : x ∈ rows) by (rewrite <- Hperm; left).
  assert (Hrow : row ∈ x :: sorted) by (by rewrite Hperm).
  destruct (Hold _ Hx) as [?|Hlt]; [done |].
  apply elem_of_cons in Hrow as [-> | Hrow]; [done |].
  apply StronglySorted_inv in Hsort as [_ Hall].
  rewrite Forall_forall in Hall. specialize (Hall _ Hrow).
  unfold createdAt_desc in Hall. lia.
Qed.

Lemma newest_first (row : BackgroundWorker) (rows : list BackgroundWorker) :
  Forall (λ bw, worker_createdAt bw < worker_createdAt row) rows →
  head (merge_sort createdAt_desc (rows ++ [row])) = Some row.
Proof.
  intros Hold. apply strictly_newest_first.
  - apply elem_of_app. right. left.
  - intros bw [Hbw | ->%list_elem_of_singleton]%elem_of_app; [| by left].
    right. rewrite Forall_forall in Hold. by apply Hold.
Qed.

(** The newest worker is a worker of the project in the environment, and
    none of those has a later stamp. *)
Lemma latest_worker_newest projectRef environmentId w latest :
  latest_worker projectRef environmentId w = Some latest →
  latest ∈ backgroundWorkers w
  ∧ worker_runtimeEnvironmentId latest = environmentId
  ∧ ∀ i project bw,
      list_find (matches_project projectRef environmentId) (projects w) = Some (i, project) →
      bw ∈ backgroundWorkers w →
      worker_projectId bw = project_id project →
      worker_runtimeEnvironmentId bw = environmentId →
      worker_createdAt bw ≤ worker_createdAt latest.
Proof.
  unfold latest_worker, project_findUniqueOrThrow. run.
  destruct (list_find _ (projects w)) as [[i project]|] eqn:Hfind; run; [| done].
  unfold include_backgroundWorkers.
  set (rows := filter _ (backgroundWorkers w)).
  pose proof (merge_sort_Permutation createdAt_desc rows) as Hperm.
  pose proof (StronglySorted_merge_sort createdAt_desc rows) as Hsort.
  destruct (merge_sort createdAt_desc rows) as [|x sorted]; [done |].
  simpl. intros [= ->].
  assert (Hin : latest ∈ rows) by (rewrite <- Hperm; left).
  apply list_elem_of_filter in Hin as [[Hp He] Hin].
  split; [done |]. split; [done |].
  intros i' project' bw [= <- <-] Hbw Hbp Hbe.
  assert (Hb : bw ∈ latest :: sorted).
  { rewrite Hperm. apply list_elem_of_filter. done. }
  apply elem_of_cons in Hb as [-> | Hb]; [done |].
  apply StronglySorted_inv in Hsort as [_ Hall].
  rewrite Forall_forall in Hall. by apply Hall.
Qed.

(** **** What [createBackgroundTasks] leaves alone *)

Lemma createBackgroundTask_frame worker env task w :
  ∃ w', createBackgroundTask imports worker env task w = (Ok tt, w')
        ∧ projects w' = projects w
        ∧ backgroundWorkers w' = backgroundWorkers w
        ∧ now w' = now w.
Proof.
  unfold createBackgroundTask, generateFriendlyId, backgroundWorkerTask_create,
    taskQueue_upsert, updateQueueConcurrency. run.
  destruct (upsert_row _ _ _ _) as [row rows]. run.
  destruct (truthy_number _); run; eauto.
Qed.

Lemma createBackgroundTasks_frame tasks worker env w :
  ∃ w', createBackgroundTasks imports tasks worker env w = (Ok tt, w')
        ∧ projects w' = projects w
        ∧ backgroundWorkers w' = backgroundWorkers w
        ∧ now w' = now w.
Proof.
  unfold createBackgroundTasks. revert w.
  induction tasks as [|task tasks IH]; intros w; simpl.
  { by exists w. }
  destruct (createBackgroundTask_frame worker env task w) as (w1 & E1 & Hp & Hb & Hn).
  destruct (IH w1) as (w2 & E2 & Hp2 & Hb2 & Hn2).
  exists w2. unfold mbind, M_bind. rewrite E1, E2.
  rewrite Hp2, Hb2, Hn2. done.
Qed.

(** **** [call], case by case *)

(** With no project for the reference and the environment, [call] throws
    and writes nothing. *)
Lemma call_no_project projectRef environment body w :
  list_find (matches_project projectRef (env_id environment)) (projects w) = None →
  call imports projectRef environment body w = (Throw "No Project found", w).
Proof.
  intros Hfind. unfold call, project_findUniqueOrThrow. run. by rewrite Hfind.
Qed.

Lemma latest_worker_found projectRef environmentId w latest :
  latest_worker projectRef environmentId w = Some latest →
  ∃ i project,
    list_find (matches_project projectRef environmentId) (projects w) = Some (i, project)
    ∧ head (include_backgroundWorkers project environmentId w) = Some latest.
Proof.
  unfold latest_worker, project_findUniqueOrThrow. run.
  destruct (list_find _ (projects w)) as [[i project]|]; run; [eauto | done].
Qed.

(** When [call] creates a worker, that worker is the newest afterwards. *)
Lemma call_result projectRef environment body w worker w' :
  wf w →
  call imports projectRef environment body w = (Ok worker, w') →
  latest_worker projectRef (env_id environment) w' = Some worker
  ∧ worker_contentHash worker = contentHash (metadata body).
Proof.
  intros Hwf. unfold call, project_findUniqueOrThrow. run.
  destruct (list_find _ (projects w)) as [[i project]|] eqn:Hfind; run; [| done].
  set (latest := head (include_backgroundWorkers project (env_id environment) w)).
  assert (Hcreate : ∀ w1 row,
    row = {| worker_id := cuid imports (S (entropy w));
             worker_friendlyId := friendlyId imports "worker" (entropy w);
             worker_version :=
               calculateNextBuildVersion imports (worker_version <$> latest);
             worker_runtimeEnvironmentId := env_id environment;
             worker_projectId := project_id project;
             worker_metadata := metadata body;
             worker_contentHash := contentHash (metadata body);
             worker_cliVersion := cliPackageVersion (metadata body);
             worker_sdkVersion := packageVersion (metadata body);
             worker_createdAt := now w |} →
    projects w1 = projects w →
    backgroundWorkers w1 = backgroundWorkers w ++ [row] →
    latest_worker projectRef (env_id environment) w1 = Some row).
  { intros w1 row Hrow Hp Hb.
    unfold latest_worker, project_findUniqueOrThrow. run.
    rewrite Hp, Hfind. run. unfold include_backgroundWorkers.
    rewrite Hb, filter_app, filter_cons_True, filter_nil by (by rewrite Hrow).
    set (rows := filter _ (backgroundWorkers w)).
    assert (Hnew : head (merge_sort createdAt_desc (rows ++ [row])) = Some row).
    { apply newest_first. apply Forall_forall. intros bw Hbw.
      apply list_elem_of_filter in Hbw as [_ Hbw].
      unfold wf in Hwf. rewrite Forall_forall in Hwf.
      rewrite Hrow. simpl. by apply Hwf. }
    destruct (merge_sort createdAt_desc (rows ++ [row])); [done |]. done. }
  assert (Hcase : ∀ r w1,
    (let create : M BackgroundWorker :=
       workerFriendlyId ← generateFriendlyId imports "worker";
       backgroundWorker ←
         backgroundWorker_create imports workerFriendlyId
           (calculateNextBuildVersion imports (worker_version <$> latest))
           (env_id environment) (project_id project) (metadata body);
       createBackgroundTasks imports (tasks (metadata body)) backgroundWorker
         environment ;;
       mret backgroundWorker in create) w = (Ok r, w1) →
    latest_worker projectRef (env_id environment) w1 = Some r
    ∧ worker_contentHash r = contentHash (metadata body)).
  { intros r w1. unfold generateFriendlyId, backgroundWorker_create, generateRowId,
      timestamp. run.
    match goal with
    | |- context [createBackgroundTasks imports ?ts ?bw ?e ?w0] =>
        destruct (createBackgroundTasks_frame ts bw e w0) as (w2 & E & Hp & Hb & _);
        rewrite E
    end.
    simpl in Hp, Hb. intros [= <- <-]. split; [| done].
    by eapply Hcreate. }
  destruct latest as [l|] eqn:Hlatest; [| apply Hcase].
  destruct (decide _) as [Hhash|]; [| apply Hcase].
  run. intros [= <- <-]. split; [| done].
  unfold latest_worker, project_findUniqueOrThrow. run. by rewrite Hfind.
Qed.

(** [call] keeps the clock ahead of the stamps. *)
Lemma call_wf projectRef environment body w r w' :
  wf w →
  call imports projectRef environment body w = (r, w') →
  wf w'.
Proof.
  intros Hwf. unfold call, project_findUniqueOrThrow. run.
  destruct (list_find _ (projects w)) as [[i project]|]; run;
    [| by intros [= <- <-]].
  set (latest := head (include_backgroundWorkers project (env_id environment) w)).
  assert (Hcase : ∀ r w1,
    (workerFriendlyId ← generateFriendlyId imports "worker";
     backgroundWorker ←
       backgroundWorker_create imports workerFriendlyId
         (calculateNextBuildVersion imports (worker_version <$> latest))
         (env_id environment) (project_id project) (metadata body);
     createBackgroundTasks imports (tasks (metadata body)) backgroundWorker
       environment ;;
     mret backgroundWorker) w = (r, w1) → wf w1).
  { intros r1 w1. unfold generateFriendlyId, backgroundWorker_create, generateRowId,
      timestamp. run.
    match goal with
    | |- context [createBackgroundTasks imports ?ts ?bw ?e ?w0] =>
        destruct (createBackgroundTasks_frame ts bw e w0) as (w2 & E & _ & Hb & Hn);
        rewrite E
    end.
    simpl in Hb, Hn. intros [= <- <-]. unfold wf. rewrite Hb, Hn.
    apply Forall_app. split.
    - eapply Forall_impl; [exact Hwf |]. simpl. lia.
    - apply Forall_singleton. simpl. lia. }
  destruct latest as [l|]; [| apply Hcase].
  destruct (decide _); [| apply Hcase].
  run. by intros [= <- <-].
Qed.

(** **** The queue table under [upsert] *)

Lemma taskQueue_update_key limit rate q :
  queue_key (taskQueue_update limit rate q) = queue_key q.
Proof. done. Qed.

Lemma upsert_row_fresh key update create rows :
  key ∉ (queue_key <$> rows) →
  upsert_row key update create rows = (create, rows ++ [create]).
Proof.
  induction rows as [|q rows IH]; simpl; [done |].
  intros Hnot. apply not_elem_of_cons in Hnot as [Hq Hrest].
  rewrite decide_False by done. by rewrite IH.
Qed.

Lemma upsert_row_present key update create rows :
  key ∈ (queue_key <$> rows) →
  ∃ before old after,
    rows = before ++ old :: after
    ∧ queue_key old = key
    ∧ (key ∉ (queue_key <$> before))
    ∧ upsert_row key update create rows = (update old, before ++ update old :: after).
Proof.
  induction rows as [|q rows IH]; simpl; [by intros ?%elem_of_nil |].
  intros Hin. destruct (decide (queue_key q = key)) as [Hq|Hq].
  - exists [], q, rows. repeat split; try done. apply not_elem_of_nil.
  - apply elem_of_cons in Hin as [Hin|Hin]; [done |].
    destruct (IH Hin) as (before & old & after & -> & Hold & Hbefore & ->).
    exists (q :: before), old, after. repeat split; try done.
    simpl. apply not_elem_of_cons. done.
Qed.

Lemma filter_key_absent key (rows : list TaskQueue) :
  key ∉ (queue_key <$> rows) → filter (λ q, queue_key q = key) rows = [].
Proof.
  induction rows as [|q rows IH]; simpl; [done |].
  intros Hnot. apply not_elem_of_cons in Hnot as [Hq Hrest].
  rewrite filter_cons_False by done. by apply IH.
Qed.

(** After an upsert the table still has unique keys, and exactly one row
    under the key: the row the upsert returns. *)
Lemma upsert_row_unique key update create rows row rows' :
  (∀ q, queue_key (update q) = queue_key q) →
  queue_key create = key →
  NoDup (queue_key <$> rows) →
  upsert_row key update create rows = (row, rows') →
  NoDup (queue_key <$> rows')
  ∧ filter (λ q, queue_key q = key) rows' = [row].
Proof.
  intros Hupd Hcreate Hnodup.
  destruct (decide (key ∈ (queue_key <$> rows))) as [Hin|Hnot].
  - destruct (upsert_row_present key update create rows Hin)
      as (before & old & after & -> & Hold & Hbefore & ->).
    intros [= <- <-].
    rewrite fmap_app, fmap_cons in Hnodup |- *. rewrite Hupd. split; [done |].
    apply NoDup_app in Hnodup as (_ & Hdisj & Hafter).
    apply NoDup_cons in Hafter as [Hafter _].
    rewrite filter_app, filter_cons_True by (by rewrite Hupd).
    rewrite !filter_key_absent; [done | by rewrite <- Hold | done].
  - rewrite upsert_row_fresh by done. intros [= <- <-].
    rewrite fmap_app, filter_app, filter_key_absent by done. simpl.
    rewrite filter_cons_True, filter_nil by done. split; [| done].
    apply NoDup_app. repeat split; [done | | apply NoDup_singleton].
    intros k Hk ->%list_elem_of_singleton. by rewrite Hcreate in Hk.
Qed.

(** One upsert, as [createBackgroundTasks] issues it. *)
Lemma taskQueue_upsert_spec friendly worker task w :
  unique_queues w →
  ∃ row w',
    taskQueue_upsert friendly worker task w = (Ok row, w')
    ∧ unique_queues w'
    ∧ queues_at (worker_runtimeEnvironmentId worker, queueName task) w' = [row]
    ∧ tq_name row = queueName task
    ∧ (∀ limit, task_queue task ≫= queue_concurrencyLimit = Some limit →
         tq_concurrencyLimit row = Some limit)
    ∧ (queues_at (worker_runtimeEnvironmentId worker, queueName task) w = [] →
         taskQueues w' = taskQueues w ++ [row]
         ∧ tq_concurrencyLimit row = task_queue task ≫= queue_concurrencyLimit
         ∧ tq_type row = match truthy_string (task_queue task ≫= queue_name) with
                         | Some _ => NAMED
                         | None => VIRTUAL
                         end)
    ∧ projects w' = projects w ∧ backgroundWorkers w' = backgroundWorkers w
    ∧ backgroundWorkerTasks w' = backgroundWorkerTasks w
    ∧ now w' = now w ∧ entropy w' = entropy w ∧ marqs w' = marqs w.
Proof.
  intros Hunique. unfold taskQueue_upsert. run.
  set (key := (worker_runtimeEnvironmentId worker, queueName task)).
  set (update := taskQueue_update _ _).
  set (create := Build_TaskQueue _ _ _ _ _ _ _).
  destruct (upsert_row key update create (taskQueues w)) as [row rows] eqn:E.
  run. exists row, (set_taskQueues (λ _, rows) w).
  destruct (upsert_row_unique key update create _ _ _
              (taskQueue_update_key _ _) eq_refl Hunique E) as [Hnodup Hone].
  split; [done |]. split; [done |]. split; [done |].
  destruct (decide (key ∈ (queue_key <$> taskQueues w))) as [Hin|Hnot].
  - destruct (upsert_row_present key update create _ Hin)
      as (before & old & after & Hrows & Hold & Hbefore & E').
    rewrite E in E'. injection E' as -> ->.
    split; [by injection Hold |].
    split.
    { intros limit Hlimit. subst update.
      cbn [taskQueue_update tq_concurrencyLimit]. by rewrite Hlimit. }
    split; [| done].
    unfold queues_at. rewrite Hrows, filter_app, filter_cons_True by done.
    by destruct (filter _ before).
  - rewrite upsert_row_fresh in E by done. injection E as <- <-.
    split; [done |]. split; [intros limit Hlimit; exact Hlimit |]. done.
Qed.

(** One round of the loop: the task row, the queue, the admission layer. *)
Lemma createBackgroundTask_spec worker env task w :
  unique_queues w →
  ∃ row w0 w',
    taskQueue_upsert (friendlyId imports "queue" (S (entropy w))) worker task w
      = (Ok row, w0)
    ∧ createBackgroundTask imports worker env task w = (Ok tt, w')
    ∧ taskQueues w' = taskQueues w0
    ∧ length (backgroundWorkerTasks w') = S (length (backgroundWorkerTasks w))
    ∧ marqs w' =
        match truthy_number (tq_concurrencyLimit row) with
        | Some limit =>
            (λ calls, calls ++ [ {| cu_env := env; cu_queue := tq_name row;
                                    cu_limit := limit |} ]) <$> marqs w
        | None => marqs w
        end.
Proof.
  intros Hunique.
  destruct (taskQueue_upsert_spec (friendlyId imports "queue" (S (entropy w)))
              worker task w Hunique) as (row & w0 & E & _).
  exists row, w0. revert E.
  unfold createBackgroundTask, generateFriendlyId, backgroundWorkerTask_create,
    taskQueue_upsert, updateQueueConcurrency. run.
  destruct (upsert_row _ _ _ _) as [row' rows]. run.
  intros [= <- <-].
  destruct (truthy_number _); run.
  - eexists. split; [reflexivity |]. split; [reflexivity |]. cbn -[length app].
    split; [done |]. split; [| done]. rewrite length_app. simpl. lia.
  - eexists. split; [reflexivity |]. split; [reflexivity |]. cbn -[length app].
    split; [done |]. split; [| done]. rewrite length_app. simpl. lia.
Qed.

End facts.

(** C1 (as stated), refuted: registering the hashes A, B, A in turn creates
    a second worker for A, because only the newest worker is compared. *)
Lemma dedup_any_previous_hash_counterexample :
  let '(r1, w1) := call sample_imports "proj_1" sample_environment
                     (sample_body "A" None) sample_world in
  let '(r2, w2) := call sample_imports "proj_1" sample_environment
                     (sample_body "B" None) w1 in
  let '(r3, w3) := call sample_imports "proj_1" sample_environment
                     (sample_body "A" None) w2 in
  worker_version <$> workers_with_hash "env_prod" "A" w2 = ["1"]
  ∧ (match r3 with Ok third => worker_version third | Throw _ => "" end) = "3"
  ∧ worker_version <$> workers_with_hash "env_prod" "A" w3 = ["1"; "3"].
Proof. vm_compute. done. Qed.

(** C1 (amended): a call whose content hash equals that of the most
    recently created worker of the project in the environment returns that
    worker and writes nothing. *)
Theorem call_dedup_latest (imports : Imports) projectRef environment body w
    i project latest :
  list_find (matches_project projectRef (env_id environment)) (projects w)
  = Some (i, project) →
  newest_in project (env_id environment) w latest →
  worker_contentHash latest = contentHash (metadata body) →
  call imports projectRef environment body w = (Ok latest, w).
Proof.
  intros Hfind (Hin & Hproject & Henv & Hnewest) Hhash.
  assert (Hhead : head (include_backgroundWorkers project (env_id environment) w)
                  = Some latest).
  { unfold include_backgroundWorkers.
    set (rows := filter _ (backgroundWorkers w)).
    assert (Hfirst : head (merge_sort createdAt_desc rows) = Some latest).
    { apply strictly_newest_first.
      - apply list_elem_of_filter. done.
      - intros bw [[? ?] ?]%list_elem_of_filter. by apply Hnewest. }
    by destruct (merge_sort createdAt_desc rows). }
  unfold call, project_findUniqueOrThrow, mbind, M_bind, mret, M_ret, get. simpl.
  rewrite Hfind. simpl. rewrite Hhead.
  by rewrite decide_True.
Qed.

Lemma call_dedup_latest_witness :
  let first := call sample_imports "proj_1" sample_environment (sample_body "A" None)
                 sample_world in
  match first.1 with
  | Ok latest =>
      call sample_imports "proj_1" sample_environment (sample_body "A" None) first.2
      = (Ok latest, first.2)
  | Throw _ => False
  end.
Proof.
  intros first.
  destruct (first.1) as [latest|e] eqn:E; [| by vm_compute in E].
  apply (call_dedup_latest sample_imports _ _ _ _ 0
           {| project_id := "p1"; project_externalRef := "proj_1";
              project_environments := ["env_prod"; "env_staging"] |}).
  - reflexivity.
  - vm_compute in E. injection E as <-.
    split; [vm_compute; left |]. split; [reflexivity |]. split; [reflexivity |].
    intros bw Hbw _ _. left.
    vm_compute in Hbw. by apply list_elem_of_singleton in Hbw.
  - vm_compute in E. injection E as <-. reflexivity.
Defined.

(** C3: a second call with the same body, right after a first one that
    returned, returns the same worker and leaves every table, the clock and
    the admission layer as the first call left them. *)
Theorem registerWorker_idempotent (imports : Imports) projectRef environment body
    w worker w' :
  wf w →
  call imports projectRef environment body w = (Ok worker, w') →
  call imports projectRef environment body w' = (Ok worker, w').
Proof.
  intros Hwf Hcall.
  destruct (call_result imports _ _ _ _ _ _ Hwf Hcall) as [Hlatest Hhash].
  apply latest_worker_found in Hlatest as (i & project & Hfind & Hhead).
  unfold call, project_findUniqueOrThrow, mbind, M_bind, mret, M_ret, get. simpl.
  rewrite Hfind. simpl. rewrite Hhead.
  by rewrite decide_True.
Qed.

(** C6 (as stated), refuted: a task that names no queue but declares a
    concurrency limit gets its virtual queue with that limit. *)
Lemma unnamed_queue_with_limit_counterexample :
  let queue := {| queue_name := None; queue_concurrencyLimit := Some 5%Z;
                  queue_rateLimit := None |} in
  let '(_, w') := call sample_imports "proj_1" sample_environment
                    (sample_body "A" (Some queue)) sample_world in
  (λ q, (tq_name q, tq_type q, tq_concurrencyLimit q)) <$> taskQueues w'
  = [("task/t1", VIRTUAL, Some 5%Z)].
Proof. vm_compute. reflexivity. Qed.

(** C6 (amended): registering a task upserts the queue [queueName task]. A
    task that names no queue gets [task/<id>]; when that queue is new it is
    created with type [VIRTUAL] and with the limit the task declares (none
    when it declares none). A task that declares a limit leaves its queue
    with that limit, and when the limit is not zero [updateQueueConcurrency]
    is called with the environment, the queue name and the limit, provided
    [marqs] is there. *)
Theorem createBackgroundTasks_queue (imports : Imports) worker env task w :
  unique_queues w →
  ∃ w' row,
    createBackgroundTasks imports [task] worker env w = (Ok tt, w')
    ∧ queues_at (worker_runtimeEnvironmentId worker, queueName task) w' = [row]
    ∧ (task_queue task ≫= queue_name = None →
         queueName task = "task/" +:+ task_id task
         ∧ (queues_at (worker_runtimeEnvironmentId worker, queueName task) w = [] →
              taskQueues w' = taskQueues w ++ [row]
              ∧ tq_type row = VIRTUAL
              ∧ tq_concurrencyLimit row = task_queue task ≫= queue_concurrencyLimit))
    ∧ (∀ limit, task_queue task ≫= queue_concurrencyLimit = Some limit →
         tq_concurrencyLimit row = Some limit
         ∧ (limit ≠ 0%Z →
              marqs w' =
                (λ calls, calls ++ [ {| cu_env := env; cu_queue := queueName task;
                                        cu_limit := limit |} ]) <$> marqs w)).
Proof.
  intros Hunique.
  destruct (createBackgroundTask_spec imports worker env task w Hunique)
    as (row & w0 & w' & Hupsert & Hrun & Hqueues & _ & Hmarqs).
  destruct (taskQueue_upsert_spec (friendlyId imports "queue" (S (entropy w)))
              worker task w Hunique)
    as (row' & w0' & Hupsert' & _ & Hone & Hname & Hlimit & Hnew & _).
  rewrite Hupsert in Hupsert'. injection Hupsert' as <- <-.
  exists w', row.
  split. { unfold createBackgroundTasks. simpl. unfold mbind, M_bind. by rewrite Hrun. }
  split. { unfold queues_at in *. by rewrite Hqueues. }
  split.
  - intros Hnone. split. { unfold queueName. by rewrite Hnone. }
    intros Hfresh. destruct (Hnew Hfresh) as (Hrows & Hl & Htype).
    rewrite Hqueues. split; [done |]. split; [| done].
    rewrite Htype. by rewrite Hnone.
  - intros limit Hdeclared. specialize (Hlimit limit Hdeclared).
    split; [done |]. intros Hnonzero.
    rewrite Hmarqs, Hlimit, Hname. simpl. by rewrite decide_False.
Qed.

Lemma createBackgroundTasks_queue_witness :
  unique_queues sample_world
  ∧ ∃ w' row,
      createBackgroundTasks sample_imports [sample_task (Some (shared_queue (Some 5%Z)))]
        sample_worker sample_environment sample_world = (Ok tt, w')
      ∧ queues_at ("env_prod", "shared") w' = [row]
      ∧ tq_concurrencyLimit row = Some 5%Z
      ∧ marqs w' = Some [ {| cu_env := sample_environment; cu_queue := "shared";
                             cu_limit := 5 |} ].
Proof.
  assert (Hunique : unique_queues sample_world) by apply NoDup_nil_2.
  split; [exact Hunique |].
  destruct (createBackgroundTasks_queue sample_imports sample_worker sample_environment
              (sample_task (Some (shared_queue (Some 5%Z)))) sample_world Hunique)
    as (w' & row & Hrun & Hone & _ & Hlimit).
  destruct (Hlimit 5%Z eq_refl) as [Hrow Hmarqs].
  exists w', row. split; [exact Hrun |]. split; [exact Hone |].
  split; [exact Hrow |]. apply Hmarqs. discriminate.
Defined.

(** The scenario of the specification, run through [call]: worker A with a
    task without a queue, then worker B with the same task on the queue
    [shared] with limit 5. *)
Example scenario_virtual_then_shared :
  let '(_, wA) := call sample_imports "proj_1" sample_environment
                    (sample_body "A" None) sample_world in
  let '(_, wB) := call sample_imports "proj_1" sample_environment
                    (sample_body "B" (Some (shared_queue (Some 5%Z)))) wA in
  (λ q, (tq_name q, tq_type q, tq_concurrencyLimit q)) <$> taskQueues wA
  = [("task/t1", VIRTUAL, None)]
  ∧ marqs wA = Some []
  ∧ (λ q, (tq_name q, tq_type q, tq_concurrencyLimit q)) <$> taskQueues wB
    = [("task/t1", VIRTUAL, None); ("shared", NAMED, Some 5%Z)]
  ∧ marqs wB = Some [ {| cu_env := sample_environment; cu_queue := "shared";
                         cu_limit := 5 |} ].
Proof. vm_compute. done. Qed.




(** C3, at a concrete world. *)
Lemma registerWorker_idempotent_witness :
  wf sample_world
  ∧ match call sample_imports "proj_1" sample_environment (sample_body "A" None)
            sample_world with
    | (Ok worker, w') =>
        call sample_imports "proj_1" sample_environment (sample_body "A" None) w'
        = (Ok worker, w')
    | (Throw _, _) => False
    end.
Proof.
  assert (Hwf : wf sample_world) by apply Forall_nil_2.
  split; [exact Hwf |].
  destruct (call sample_imports "proj_1" sample_environment (sample_body "A" None)
              sample_world) as [[worker|e] w'] eqn:E.
  - exact (registerWorker_idempotent sample_imports _ _ _ _ _ _ Hwf E).
  - vm_compute in E. discriminate E.
Defined.

End RegistryFacts.

(* ===== properties: deploy ===== *)
Module DeployFacts.
Import Deploy.

Section poll_facts.
Context (client : Client) (timeoutInSeconds start : Z).

Abbreviation poll_from c := (poll client timeoutInSeconds start c).

(** The loop only adds to the list of requests. *)
Lemma poll_requests_prefix c :
  ∃ new, requests (poll_from c).2 = requests c ++ new.
Proof.
  funelim (poll_from c); simpl.
  - exists []. by rewrite app_nil_r.
  - by exists [time c].
  - by exists [time c].
  - destruct H as [new Hnew]. simpl in Hnew.
    exists (time c :: new). rewrite Hnew. by rewrite <- app_assoc.
Qed.

(** The first request of the loop goes out at once. *)
Lemma poll_first_request c t :
  requests (poll_from c).2 !! length (requests c) = Some t → t = time c.
Proof.
  destruct (poll_requests_prefix (setTimeout client 1000 (getDeployment_clock client c)))
    as [new Hnew].
  simp poll. destruct (decide _) as [?|?]; simpl.
  { intros Hl. apply lookup_lt_Some in Hl. lia. }
  destruct (getDeployment_answer client c) as [data|error]; simpl.
  - destruct (decide _) as [?|?]; simpl.
    + rewrite lookup_app_r, Nat.sub_diag by done. by intros [= <-].
    + rewrite Hnew. simpl. rewrite <- app_assoc.
      rewrite lookup_app_r, Nat.sub_diag by done. by intros [= <-].
  - rewrite lookup_app_r, Nat.sub_diag by done. by intros [= <-].
Qed.

(** Between one request and the next lie the time the request took, the
    1000 ms of the timer, and the overshoot of the timer. *)
Lemma poll_interval c k t t' :
  length (requests c) ≤ k →
  requests (poll_from c).2 !! k = Some t →
  requests (poll_from c).2 !! S k = Some t' →
  t' = (t + Z.of_N (latency client k) + 1000 + Z.of_N (lag client k))%Z.
Proof.
  revert k t t'. funelim (poll_from c); intros k t t' Hk; simpl.
  - intros Hl. apply lookup_lt_Some in Hl. lia.
  - intros _ Hl. apply lookup_lt_Some in Hl. rewrite length_app in Hl. simpl in Hl. lia.
  - intros _ Hl. apply lookup_lt_Some in Hl. rewrite length_app in Hl. simpl in Hl. lia.
  - set (c2 := setTimeout client 1000 (getDeployment_clock client c)) in *.
    assert (Hlen : length (requests c2) = S (length (requests c))).
    { subst c2. simpl. rewrite length_app. simpl. lia. }
    destruct (decide (k = length (requests c))) as [->|Hne].
    + intros Ht Ht'. rewrite <- Hlen in Ht'.
      apply poll_first_request in Ht' as ->.
      destruct (poll_requests_prefix c2) as [new Hnew]. rewrite Hnew in Ht.
      subst c2. simpl in Ht. rewrite <- app_assoc in Ht.
      rewrite lookup_app_r, Nat.sub_diag in Ht by done. injection Ht as <-.
      simpl. rewrite length_app. simpl.
      replace (length (requests c) + 1 - 1) with (length (requests c)) by lia. lia.
    + apply H. lia.
Qed.

(** Every request goes out inside the time box. *)
Lemma poll_requests_in_time c k t :
  length (requests c) ≤ k →
  requests (poll_from c).2 !! k = Some t →
  (t - start ≤ timeoutInSeconds * 1000)%Z.
Proof.
  revert k t. funelim (poll_from c); intros k t Hk; simpl.
  - intros Hl. apply lookup_lt_Some in Hl. lia.
  - intros Hl. pose proof (lookup_lt_Some _ _ _ Hl) as Hlt.
    rewrite length_app in Hlt. simpl in Hlt.
    replace k with (length (requests c)) in Hl by lia.
    rewrite lookup_app_r, Nat.sub_diag in Hl by done. injection Hl as <-. lia.
  - intros Hl. pose proof (lookup_lt_Some _ _ _ Hl) as Hlt.
    rewrite length_app in Hlt. simpl in Hlt.
    replace k with (length (requests c)) in Hl by lia.
    rewrite lookup_app_r, Nat.sub_diag in Hl by done. injection Hl as <-. lia.
  - set (c2 := setTimeout client 1000 (getDeployment_clock client c)) in *.
    destruct (decide (k = length (requests c))) as [->|Hne].
    + destruct (poll_requests_prefix c2) as [new Hnew]. rewrite Hnew.
      subst c2. simpl. rewrite <- app_assoc.
      rewrite lookup_app_r, Nat.sub_diag by done. intros [= <-]. lia.
    + apply H. subst c2. simpl. rewrite length_app. simpl. lia.
Qed.

(** The loop gives up only once the time box is used up. *)
Lemma poll_gives_up_late c :
  (poll_from c).1 = Returned None →
  (timeoutInSeconds * 1000 < time (poll_from c).2 - start)%Z.
Proof.
  funelim (poll_from c); simpl; try done.
Qed.

(** A deployment that is handed back was reported [DEPLOYED]. *)
Lemma poll_returns_deployed c data :
  (poll_from c).1 = Returned (Some data) →
  deployment_status data = "DEPLOYED".
Proof.
  funelim (poll_from c); simpl; try done.
  - by intros [= <-].
  - apply H.
Qed.

(** While the requests succeed with a status other than [DEPLOYED], the
    loop runs into the time box and returns nothing. *)
Lemma poll_never_deployed c :
  (∀ k, length (requests c) ≤ k →
        ∃ data, reply client k = Success data ∧ deployment_status data ≠ "DEPLOYED") →
  (poll_from c).1 = Returned None.
Proof.
  funelim (poll_from c); intros Hreply; simpl.
  - done.
  - destruct (Hreply (length (requests c))) as (d & Hd & ?); [done |].
    unfold getDeployment_answer in Heq. congruence.
  - destruct (Hreply (length (requests c))) as (d & Hd & ?); [done |].
    unfold getDeployment_answer in Heq0. congruence.
  - apply H. intros k Hk. apply Hreply.
    simpl in Hk. rewrite length_app in Hk. lia.
Qed.

(** A request that fails ends the loop with its error. *)
Lemma poll_failure_throws c k error :
  length (requests c) ≤ k < length (requests (poll_from c).2) →
  reply client k = Failure error →
  (poll_from c).1 = Thrown error ∧ length (requests (poll_from c).2) = S k.
Proof.
  revert k. funelim (poll_from c); intros k; simpl.
  - lia.
  - rewrite length_app. simpl. intros Hk Hfail.
    replace k with (length (requests c)) in Hfail by lia.
    unfold getDeployment_answer in Heq. split; [congruence | lia].
  - rewrite length_app. simpl. intros Hk Hfail.
    replace k with (length (requests c)) in Hfail by lia.
    unfold getDeployment_answer in Heq0. congruence.
  - intros Hk Hfail.
    destruct (decide (k = length (requests c))) as [->|Hne].
    + unfold getDeployment_answer in Heq0. congruence.
    + apply H; [| done]. simpl. rewrite length_app. simpl. lia.
Qed.

End poll_facts.

(** C2 (as stated), refuted: a deployment that reports [ERROR] is polled
    until the time box is used up, 61 requests a second apart, and the
    function then returns nothing, as it does for a deployment that stays
    [PENDING]. *)
Lemma error_status_counterexample :
  (waitForDeploymentToComplete (always "ERROR") None clock0).1 = Returned None
  ∧ length (requests (waitForDeploymentToComplete (always "ERROR") None clock0).2) = 61
  ∧ (waitForDeploymentToComplete (always "ERROR") None clock0).1
    = (waitForDeploymentToComplete (always "PENDING") None clock0).1.
Proof. vm_compute. done. Qed.

(** C2 (amended): with the default of 60 seconds when no timeout is given,
    for a deployment whose status requests succeed and never report
    [DEPLOYED] (whatever else they report, [ERROR] included) the function
    returns nothing and does not throw; it returns once more than the
    timeout has passed, every request goes out within the timeout, and
    between two requests lie the 1000 ms of the timer, on top of the time the
    request and the timer take. *)
Theorem wait_times_out (client : Client) (timeoutInSeconds : option Z) (c : Clock) :
  (∀ k, length (requests c) ≤ k →
        ∃ data, reply client k = Success data ∧ deployment_status data ≠ "DEPLOYED") →
  let result := waitForDeploymentToComplete client timeoutInSeconds c in
  let timeout := default 60%Z timeoutInSeconds in
  result.1 = Returned None
  ∧ (timeout * 1000 < time result.2 - time c)%Z
  ∧ (∀ k t, length (requests c) ≤ k → requests result.2 !! k = Some t →
       (t - time c ≤ timeout * 1000)%Z)
  ∧ (∀ k t t', length (requests c) ≤ k →
       requests result.2 !! k = Some t → requests result.2 !! S k = Some t' →
       t' = (t + Z.of_N (latency client k) + 1000 + Z.of_N (lag client k))%Z).
Proof.
  intros Hreply result timeout. subst result timeout.
  unfold waitForDeploymentToComplete.
  pose proof (poll_never_deployed client (default 60%Z timeoutInSeconds) (time c) c Hreply)
    as Hnone.
  split; [done |].
  split; [by apply poll_gives_up_late |].
  split.
  - intros k t. apply poll_requests_in_time.
  - intros k t t'. apply poll_interval.
Qed.

Lemma wait_times_out_witness :
  let result := waitForDeploymentToComplete (always "ERROR") None clock0 in
  result.1 = Returned None
  ∧ (60 * 1000 < time result.2 - 0)%Z
  ∧ (∀ k t, 0 ≤ k → requests result.2 !! k = Some t → (t - 0 ≤ 60 * 1000)%Z)
  ∧ (∀ k t t', 0 ≤ k →
       requests result.2 !! k = Some t → requests result.2 !! S k = Some t' →
       t' = (t + 0 + 1000 + 0)%Z).
Proof.
  apply (wait_times_out (always "ERROR") None clock0).
  intros k _. eexists. split; [reflexivity | discriminate].
Defined.

(** C10: when a status request made by [waitForDeploymentToComplete] fails,
    the function throws the error of that request, and that request was its
    last one. *)
Theorem failed_poll_throws (client : Client) (timeoutInSeconds : option Z) (c : Clock)
    (k : nat) (error : string) :
  let result := waitForDeploymentToComplete client timeoutInSeconds c in
  length (requests c) ≤ k < length (requests result.2) →
  reply client k = Failure error →
  result.1 = Thrown error ∧ length (requests result.2) = S k.
Proof.
  intros result. subst result. unfold waitForDeploymentToComplete.
  apply poll_failure_throws.
Qed.

Lemma failed_poll_throws_witness :
  let result := waitForDeploymentToComplete (failing_at 2 "Internal Server Error")
                  None clock0 in
  result.1 = Thrown "Internal Server Error" ∧ length (requests result.2) = 3.
Proof.
  apply (failed_poll_throws (failing_at 2 "Internal Server Error") None clock0 2).
  - vm_compute. split; apply Nat.le_refl || (repeat constructor).
  - reflexivity.
Defined.

(** The outcomes of the function, one by one. *)
Example wait_deployed :
  (waitForDeploymentToComplete (always "DEPLOYED") None clock0).1
  = Returned (Some {| deployment_id := "dep_1"; deployment_status := "DEPLOYED" |}).
Proof. vm_compute. reflexivity. Qed.

Example wait_failing_requests :
  requests (waitForDeploymentToComplete (failing_at 2 "Internal Server Error")
              None clock0).2
  = [0; 1021; 2042]%Z.
Proof. vm_compute. reflexivity. Qed.

(** **** The environment variable gate *)






(** With every name registered the command goes on to deploy. *)
Example all_registered_deploys :
  let run := sample_run ["FOO"; "BAR"] {[ "FOO" := "1"; "BAR" := "" ]} None in
  filter deploys (deployCommand sample_terminal run).1
  = [InitializeDeployment "abc"; BuildAndPushImage "proj_1:20240306.1.prod"].
Proof. vm_compute. reflexivity. Qed.

Example arrayToSentence_examples :
  arrayToSentence ["BAR"] = "BAR"
  ∧ arrayToSentence ["FOO"; "BAR"] = "FOO and BAR"
  ∧ arrayToSentence ["A"; "B"; "C"] = "A, B, and C".
Proof. vm_compute. done. Qed.

End DeployFacts.

(* ===== properties: build ===== *)
Module BuildFacts.
Import Build.

Example gather_example :
  gatherRequiredDependencies sample_runtime
    [ require_call "zod"; require_call "lodash/fp"; require_call "@trigger.dev/core/v3";
      require_call "node:fs"; require_call "lodash";
      {| import_path := "./local"; import_kind := "import-statement";
         import_external := None |} ]
    sample_packageJson
  = [("zod", "3.21.0"); ("lodash", "4.17.21"); ("@trigger.dev/core", "3.0.0")].
Proof. vm_compute. reflexivity. Qed.

Example hash_example :
  contentHash sample_runtime "entry" "worker"
    [("zod", "3.21.0"); ("10", "1.0.0"); ("lodash", "4.17.21"); ("9", "2.0.0")]
  = "|entry|worker|{" +:+ join ","
      [ dquote +:+ "9" +:+ dquote +:+ ":" +:+ dquote +:+ "2.0.0" +:+ dquote;
        dquote +:+ "10" +:+ dquote +:+ ":" +:+ dquote +:+ "1.0.0" +:+ dquote;
        dquote +:+ "lodash" +:+ dquote +:+ ":" +:+ dquote +:+ "4.17.21" +:+ dquote;
        dquote +:+ "zod" +:+ dquote +:+ ":" +:+ dquote +:+ "3.21.0" +:+ dquote ]
    +:+ "}".
Proof. vm_compute. reflexivity. Qed.

(** **** Objects *)

Lemma obj_get_None o k : obj_get o k = None ↔ k ∉ o.*1.
Proof.
  induction o as [|[k' v] o IH]; simpl.
  - split; [intros _; apply not_elem_of_nil | done].
  - rewrite not_elem_of_cons. destruct (decide (k' = k)) as [->|Hne].
    + split; [done | by intros [? _]].
    + rewrite IH. split; [by intros ? | by intros [_ ?]].
Qed.

Lemma obj_set_fresh o k v : obj_get o k = None → obj_set k v o = o ++ [(k, v)].
Proof.
  induction o as [|[k' v'] o IH]; simpl; [done |].
  destruct (decide (k' = k)); [done |]. intros Hnone. by rewrite IH.
Qed.

Lemma obj_get_snoc o k v k' :
  obj_get (o ++ [(k, v)]) k'
  = match obj_get o k' with
    | Some v' => Some v'
    | None => if decide (k = k') then Some v else None
    end.
Proof.
  induction o as [|[k0 v0] o IH]; simpl; [done |].
  destruct (decide (k0 = k')); [done | apply IH].
Qed.

Lemma obj_values_unique (o : JsObject) k v1 v2 :
  NoDup o.*1 → (k, v1) ∈ o → (k, v2) ∈ o → v1 = v2.
Proof.
  induction o as [|[k0 v0] o IH]; simpl; [by intros _ ?%elem_of_nil |].
  intros [Hk0 Hnodup]%NoDup_cons H1 H2.
  assert (Hfresh : ∀ v, (k0, v) ∉ o).
  { intros v Hv. destruct Hk0. apply list_elem_of_fmap. by exists (k0, v). }
  apply elem_of_cons in H1 as [H1|H1], H2 as [H2|H2].
  - congruence.
  - injection H1 as -> ->. by apply Hfresh in H2.
  - injection H2 as -> ->. by apply Hfresh in H1.
  - by apply IH.
Qed.

(** **** [gatherRequiredDependencies] *)

Section gather_facts.
Context (runtime : Runtime) (externalPackageJson : option PackageJson).

Abbreviation detect := (detectPackageNameFromImportPath runtime).
Abbreviation pin := (pinned runtime externalPackageJson).

Lemma truthy_string_Some v s : truthy_string v = Some s → v = Some s ∧ s ≠ "".
Proof.
  destruct v as [s'|]; simpl; [| done].
  destruct (decide (s' = "")); [done |]. by intros [= <-].
Qed.

Lemma truthy_string_None v : truthy_string v = None → v = None ∨ v = Some "".
Proof.
  destruct v as [s'|]; simpl; [| by left].
  destruct (decide (s' = "")) as [->|]; [by right | done].
Qed.

Lemma pinned_nonempty p v : pin p = Some v → v ≠ "".
Proof.
  unfold pinned.
  destruct (truthy_string (external_version _ _)) as [v'|] eqn:E.
  - intros [= <-]. by apply truthy_string_Some in E as [_ ?].
  - intros E'. by apply truthy_string_Some in E' as [_ ?].
Qed.

Lemma gathered_nil : gathered runtime externalPackageJson [] [].
Proof.
  split; [apply NoDup_nil_2 |]. intros p v. simpl. split; [done |].
  intros [(file & Hin & _) _]. by apply elem_of_nil in Hin.
Qed.

Lemma gathered_step seen o file :
  gathered runtime externalPackageJson seen o →
  gathered runtime externalPackageJson (seen ++ [file])
    (gather runtime externalPackageJson o file).
Proof.
  intros [Hnodup Hget]. unfold gather.
  destruct (decide (required file)) as [Hreq|Hreq].
  2:{ split; [done |]. intros p v. rewrite Hget. split.
      - intros [(f & Hin & ? & ?) ?]. split; [| done].
        exists f. split; [| done]. apply elem_of_app. by left.
      - intros [(f & Hin & Hr & ?) ?]. split; [| done].
        exists f. apply elem_of_app in Hin as [Hin|Hin%list_elem_of_singleton];
          [done | by subst f]. }
  set (name := detect (import_path file)).
  assert (Hseen : ∀ p v,
    ((∃ f, f ∈ seen ++ [file] ∧ required f ∧ detect (import_path f) = p)
     ∧ pin p = Some v)
    ↔ (obj_get o p = Some v ∨ (p = name ∧ pin p = Some v))).
  { intros p v. rewrite Hget. split.
    - intros [(f & Hin & Hr & Hp) Hpin].
      apply elem_of_app in Hin as [Hin|Hin%list_elem_of_singleton].
      + left. split; [by exists f | done].
      + right. subst f. done.
    - intros [[(f & Hin & Hr & Hp) Hpin] | [-> Hpin]].
      + split; [| done]. exists f. split; [| done]. apply elem_of_app. by left.
      + split; [| done]. exists file. split; [| done].
        apply elem_of_app. right. by apply list_elem_of_singleton. }
  destruct (truthy_string (obj_get o name)) as [v0|] eqn:Hhave.
  { apply truthy_string_Some in Hhave as [Hhave _].
    split; [done |]. intros p v. rewrite Hseen. split; [by left |].
    intros [? | [-> Hpin]]; [done |].
    pose proof (proj1 (Hget _ _) Hhave) as [_ Hpin0]. congruence. }
  assert (Hnone : obj_get o name = None).
  { apply truthy_string_None in Hhave as [? | Hempty]; [done |].
    apply Hget in Hempty as [_ Hpin]. by apply pinned_nonempty in Hpin. }
  assert (Hadd : ∀ version, pin name = Some version →
    gathered runtime externalPackageJson (seen ++ [file]) (obj_set name version o)).
  { intros version Hpin. rewrite obj_set_fresh by done. split.
    - rewrite fmap_app. apply NoDup_app. split; [done |]. split.
      + intros k Hk ->%list_elem_of_singleton. by apply obj_get_None in Hnone.
      + apply NoDup_singleton.
    - intros p v. rewrite Hseen, obj_get_snoc.
      destruct (obj_get o p) as [v'|] eqn:Hp.
      + split; [by left |]. intros [? | [-> ?]]; [done | congruence].
      + destruct (decide (name = p)) as [<-|Hne].
        * split; [intros [= <-]; by right |]. intros [? | [_ ?]]; [done | congruence].
        * split; [done |]. intros [? | [-> ?]]; done. }
  assert (Hskip : pin name = None →
    gathered runtime externalPackageJson (seen ++ [file]) o).
  { intros Hpin. split; [done |]. intros p v. rewrite Hseen. split; [by left |].
    intros [? | [-> ?]]; [done | congruence]. }
  unfold pinned in Hadd, Hskip. fold name.
  destruct (truthy_string (external_version externalPackageJson name)) as [v1|];
    [by apply Hadd |].
  destruct (truthy_string (packageJson_dependencies runtime !! name)) as [v2|];
    [by apply Hadd | by apply Hskip].
Qed.

Lemma gathered_foldl seen o imports :
  gathered runtime externalPackageJson seen o →
  gathered runtime externalPackageJson (seen ++ imports)
    (foldl (gather runtime externalPackageJson) o imports).
Proof.
  revert seen o. induction imports as [|file imports IH]; intros seen o Hinv; simpl.
  - by rewrite app_nil_r.
  - replace (seen ++ file :: imports) with ((seen ++ [file]) ++ imports)
      by (by rewrite <- app_assoc).
    apply IH. by apply gathered_step.
Qed.

Lemma gatherRequiredDependencies_gathered imports :
  gathered runtime externalPackageJson imports
    (gatherRequiredDependencies runtime imports externalPackageJson).
Proof. apply (gathered_foldl [] [] imports gathered_nil). Qed.

End gather_facts.



(** **** Sorting *)

Section sort_facts.
Context {A : Type} (compare : A → A → Z).
Context (compare_total : ∀ a b, (compare a b ≤ 0)%Z ∨ (compare b a ≤ 0)%Z).
Context (compare_trans :
  ∀ a b c, (compare a b ≤ 0)%Z → (compare b c ≤ 0)%Z → (compare a c ≤ 0)%Z).

#[local] Abbreviation before := (before compare).

Lemma sort_insert_Permutation x l : sort_insert compare x l ≡ₚ x :: l.
Proof.
  induction l as [|y l IH]; simpl; [done |].
  destruct (decide _); [done |]. rewrite IH. apply Permutation_swap.
Qed.

Lemma sort_Permutation l : sort compare l ≡ₚ l.
Proof.
  induction l as [|x l IH]; simpl; [done |].
  rewrite sort_insert_Permutation. by rewrite IH.
Qed.

Lemma sort_insert_sorted x l :
  StronglySorted before l → StronglySorted before (sort_insert compare x l).
Proof.
  induction 1 as [|y l Hsorted IH Hall]; simpl.
  { repeat constructor. }
  destruct (decide (compare x y ≤ 0)%Z) as [Hxy|Hxy].
  - constructor; [by constructor |]. constructor; [done |].
    eapply Forall_impl; [exact Hall |]. intros z Hyz. by eapply compare_trans.
  - constructor; [done |]. rewrite sort_insert_Permutation.
    constructor; [| done]. by destruct (compare_total x y).
Qed.

Lemma sort_sorted l : StronglySorted before (sort compare l).
Proof.
  induction l as [|x l IH]; simpl; [constructor |]. by apply sort_insert_sorted.
Qed.

(** Two sorted lists with the same elements are the same list, when no
    two different elements rank alike. *)
Lemma sorted_Permutation_eq l1 l2 :
  (∀ a b, a ∈ l1 → b ∈ l1 → before a b → before b a → a = b) →
  StronglySorted before l1 → StronglySorted before l2 → l1 ≡ₚ l2 → l1 = l2.
Proof.
  revert l2. induction l1 as [|x l1 IH]; intros l2 Hanti Hs1 Hs2 Hperm.
  { by apply Permutation_nil_l in Hperm. }
  destruct l2 as [|y l2]; [by apply Permutation_nil_r in Hperm |].
  apply StronglySorted_inv in Hs1 as [Hs1 Hx], Hs2 as [Hs2 Hy].
  rewrite Forall_forall in Hx, Hy.
  assert (x = y) as <-.
  { assert (Hxin : x ∈ y :: l2) by (rewrite <- Hperm; left).
    assert (Hyin : y ∈ x :: l1) by (rewrite Hperm; left).
    apply elem_of_cons in Hxin as [?|Hxin]; [done |].
    apply elem_of_cons in Hyin as [?|Hyin]; [done |].
    apply Hanti; [left | by right | by apply Hx | by apply Hy]. }
  f_equal. apply IH; [| done | done | by apply Permutation_cons_inv in Hperm].
  intros a b Ha Hb. apply Hanti; by right.
Qed.

End sort_facts.

Lemma filter_all {A} (P : A → Prop) `{∀ x, Decision (P x)} (l : list A) :
  Forall P l → filter P l = l.
Proof.
  induction 1 as [|x l Hx Hall IH]; [done |].
  by rewrite filter_cons_True, IH.
Qed.

Lemma filter_none {A} (P : A → Prop) `{∀ x, Decision (P x)} (l : list A) :
  Forall (λ x, ¬ P x) l → filter P l = [].
Proof.
  induction 1 as [|x l Hx Hall IH]; [done |].
  by rewrite filter_cons_False.
Qed.

(** An object lists each of its properties once. *)
Lemma own_properties_Permutation o : own_properties o ≡ₚ o.
Proof.
  unfold own_properties. rewrite sort_Permutation. apply filter_app_complement.
Qed.

(** **** The content hash *)

Section hash_facts.
Context (runtime : Runtime).
Context (Hconsistent : consistent (localeCompare runtime)).

(** However the properties were added, they come out of the sort in one
    order. *)
Lemma sorted_entries_order_independent (o1 o2 : JsObject) :
  NoDup o1.*1 →
  distinguishes (localeCompare runtime) o1 →
  o1 ≡ₚ o2 →
  sort (by_key runtime) (entries o1) = sort (by_key runtime) (entries o2).
Proof.
  intros Hnodup Hdistinct Hperm. destruct Hconsistent as [Htotal Htrans].
  apply (sorted_Permutation_eq (by_key runtime)).
  - intros [k1 v1] [k2 v2] H1 H2 H12 H21.
    rewrite sort_Permutation in H1, H2. unfold entries in H1, H2.
    rewrite own_properties_Permutation in H1, H2.
    assert (k1 = k2) as <-.
    { apply Hdistinct; try done.
      - apply list_elem_of_fmap. by exists (k1, v1).
      - apply list_elem_of_fmap. by exists (k2, v2). }
    f_equal. by eapply obj_values_unique.
  - apply sort_sorted; unfold by_key; [intros; apply Htotal | intros ???; apply Htrans].
  - apply sort_sorted; unfold by_key; [intros; apply Htotal | intros ???; apply Htrans].
  - rewrite !sort_Permutation. unfold entries.
    by rewrite !own_properties_Permutation.
Qed.

End hash_facts.

(** **** The comparison of the concrete runtime *)

#[local] Instance code_units_inj : Inj (=) (=) code_units.
Proof.
  assert (Hinj : Inj (=) (=) nat_of_ascii).
  { intros x y Hxy.
    rewrite <- (ascii_nat_embedding x), <- (ascii_nat_embedding y). by rewrite Hxy. }
  intros a b Heq. unfold code_units in Heq.
  apply (inj (fmap nat_of_ascii)) in Heq.
  rewrite <- (String.string_of_list_ascii_of_string a),
    <- (String.string_of_list_ascii_of_string b). by rewrite Heq.
Qed.

Lemma sample_localeCompare_le a b :
  (sample_localeCompare a b ≤ 0)%Z
  ↔ lexico (code_units a) (code_units b) ∨ code_units a = code_units b.
Proof.
  unfold sample_localeCompare.
  destruct (trichotomyT lexico (code_units a) (code_units b)) as [[Hlt|Heq]|Hgt].
  - split; [by left | lia].
  - split; [by right | lia].
  - split; [lia |]. intros [Hlt|Heq].
    + destruct (irreflexivity lexico (code_units a)). by transitivity (code_units b).
    + rewrite Heq in Hgt. by destruct (irreflexivity lexico (code_units b)).
Qed.

Lemma sample_localeCompare_consistent : consistent sample_localeCompare.
Proof.
  split.
  - intros a b. rewrite !sample_localeCompare_le.
    destruct (trichotomyT lexico (code_units a) (code_units b)) as [[?|?]|?]; auto.
  - intros a b c. rewrite !sample_localeCompare_le.
    intros [Hab|Hab] [Hbc|Hbc].
    + left. by transitivity (code_units b).
    + left. by rewrite <- Hbc.
    + left. by rewrite Hab.
    + right. congruence.
Qed.

Lemma sample_localeCompare_distinguishes o : distinguishes sample_localeCompare o.
Proof.
  intros a b _ _. rewrite !sample_localeCompare_le.
  intros [Hab|Hab] [Hba|Hba]; try by apply (inj code_units).
  destruct (irreflexivity lexico (code_units a)). by transitivity (code_units b).
Qed.

Ltac distinct_keys :=
  let Hin := fresh "Hin" in
  intros Hin;
  repeat (apply elem_of_cons in Hin as [Hin|Hin]; [discriminate Hin |]);
  by apply elem_of_nil in Hin.



(** Without array indices among the keys, what is fed to the hasher lists
    the dependencies in the order of the sort. *)
Lemma stringify_sorted (runtime : Runtime) (o : JsObject) :
  NoDup o.*1 →
  Forall (λ entry, array_index entry.1 = None) o →
  own_properties (fromEntries (sort (by_key runtime) (entries o)))
  = sort (by_key runtime) o.
Proof.
  intros Hnodup Hplain.
  assert (Hown : ∀ o' : JsObject,
    Forall (λ entry, array_index entry.1 = None) o' → own_properties o' = o').
  { intros o' Hall. unfold own_properties.
    rewrite (filter_none (λ entry : string * string, is_Some (array_index entry.1))),
      (filter_all (λ entry : string * string, ¬ is_Some (array_index entry.1)));
      [done | |].
    - eapply Forall_impl; [exact Hall |]. simpl. intros entry ->. by intros [? ?].
    - eapply Forall_impl; [exact Hall |]. simpl. intros entry ->. by intros [? ?]. }
  assert (Hfrom : ∀ es acc : JsObject,
    NoDup (acc ++ es).*1 →
    foldl (λ o' entry, obj_set entry.1 entry.2 o') acc es = acc ++ es).
  { induction es as [|[k v] es IH]; intros acc Hnd; simpl.
    - by rewrite app_nil_r.
    - rewrite obj_set_fresh.
      + rewrite IH; rewrite <- app_assoc; done.
      + apply obj_get_None. rewrite fmap_app in Hnd.
        apply NoDup_app in Hnd as (_ & Hdisj & _). intros Hk.
        apply (Hdisj k Hk). simpl. left. }
  unfold entries. rewrite (Hown o Hplain).
  unfold fromEntries. rewrite Hfrom.
  - simpl. apply Hown. by rewrite sort_Permutation.
  - simpl. by rewrite sort_Permutation.
Qed.

End BuildFacts.

(* ===== properties: schemas ===== *)
Module SchemasFacts.
Import Schemas.

Section parse_facts.
Context (imported : string → option Json → option (option Json)).







End parse_facts.



(** A message without a version comes out with ["v1"]. *)
Example parse_heartbeat_default :
  (def ← CoordinatorToPlatformMessages.*2 !! 4;
   parse sample_imported (message def)
     (Some (JObj [("attemptFriendlyId", JStr "attempt_1")])))
  = Some (Some (JObj [("version", JStr "v1"); ("attemptFriendlyId", JStr "attempt_1")])).
Proof. vm_compute. reflexivity. Qed.

(** A message with another version is rejected. *)
Example parse_heartbeat_v2 :
  (def ← CoordinatorToPlatformMessages.*2 !! 4;
   parse sample_imported (message def)
     (Some (JObj [("version", JStr "v2"); ("attemptFriendlyId", JStr "attempt_1")])))
  = None.
Proof. vm_compute. reflexivity. Qed.

(** The callback of [READY_FOR_EXECUTION]: a failure loses whatever came
    with it, a success keeps its payload. *)
Example parse_callback_failure :
  (def ← CoordinatorToPlatformMessages.*2 !! 2;
   schema ← callback def;
   parse sample_imported schema
     (Some (JObj [("success", JBool false); ("payload", JStr "ignored")])))
  = Some (Some (JObj [("success", JBool false)])).
Proof. vm_compute. reflexivity. Qed.

Example parse_callback_success :
  (def ← CoordinatorToPlatformMessages.*2 !! 2;
   schema ← callback def;
   parse sample_imported schema
     (Some (JObj [("success", JBool true); ("payload", JStr "execution")])))
  = Some (Some (JObj [("success", JBool true); ("payload", JStr "execution")])).
Proof. vm_compute. reflexivity. Qed.

End SchemasFacts.

(* ===== further properties: registry ===== *)
Module RegistryMore.
Import Registry RegistryNotions RegistryFacts.

Section more.
Context (imports : Imports).

Ltac run := unfold mbind, M_bind, mret, M_ret, get, modify, throw; simpl.

(** **** [upsert_row] *)

Lemma upsert_row_cases key update create rows :
((key ∉ (queue_key <$> rows))
   ∧ upsert_row key update create rows = (create, rows ++ [create]))
  ∨ (∃ before old after,
       rows = before ++ old :: after
       ∧ queue_key old = key
       ∧ (key ∉ (queue_key <$> before))
       ∧ upsert_row key update create rows
         = (update old, before ++ update old :: after)).
Proof.
  destruct (decide (key ∈ (queue_key <$> rows))) as [Hin|Hnot].
  - right. by apply upsert_row_present.
  - left. split; [done |]. by apply upsert_row_fresh.
Qed.

Lemma upsert_row_keys_prefix key update create rows row rows' :
  (∀ q, queue_key (update q) = queue_key q) →
  upsert_row key update create rows = (row, rows') →
  (queue_key <$> rows) `prefix_of` (queue_key <$> rows').
Proof.
  intros Hupd.
  destruct (upsert_row_cases key update create rows)
    as [[_ ->] | (before & old & after & -> & _ & _ & ->)]; intros [= <- <-].
  - rewrite fmap_app. by apply prefix_app_r.
  - rewrite !fmap_app, !fmap_cons, Hupd. done.
Qed.

Lemma upsert_row_other key key' update create rows row rows' :
  (∀ q, queue_key (update q) = queue_key q) →
  queue_key create = key →
  key' ≠ key →
  upsert_row key update create rows = (row, rows') →
  filter (λ q, queue_key q = key') rows' = filter (λ q, queue_key q = key') rows.
Proof.
  intros Hupd Hcreate Hne.
  destruct (upsert_row_cases key update create rows)
    as [[_ ->] | (before & old & after & -> & Hold & _ & ->)]; intros [= <- <-].
  - rewrite filter_app, filter_cons_False, filter_nil, app_nil_r; [done |].
    by rewrite Hcreate.
  - rewrite !filter_app, !filter_cons_False; [done | | ].
    + by rewrite Hold.
    + by rewrite Hupd, Hold.
Qed.

Lemma upsert_row_elem key update create rows row rows' :
  (∀ q, queue_key (update q) = queue_key q) →
  queue_key create = key →
  upsert_row key update create rows = (row, rows') →
  row ∈ rows' ∧ queue_key row = key.
Proof.
  intros Hupd Hcreate.
  destruct (upsert_row_cases key update create rows)
    as [[_ ->] | (before & old & after & -> & Hold & _ & ->)]; intros [= <- <-].
  - split; [| done]. apply elem_of_app. right. left.
  - split; [| by rewrite Hupd]. apply elem_of_app. right. left.
Qed.

(** **** One round of the loop, in full *)

Lemma createBackgroundTask_step worker env task w :
  ∃ w' taskRow queue,
    createBackgroundTask imports worker env task w = (Ok tt, w')
    ∧ projects w' = projects w
    ∧ backgroundWorkers w' = backgroundWorkers w
    ∧ now w' = now w
    ∧ backgroundWorkerTasks w' = backgroundWorkerTasks w ++ [taskRow]
    ∧ written_for worker task taskRow
    ∧ (queue_key <$> taskQueues w) `prefix_of` (queue_key <$> taskQueues w')
    ∧ (∀ key, key ≠ (worker_runtimeEnvironmentId worker, queueName task) →
         queues_at key w' = queues_at key w)
    ∧ queue ∈ taskQueues w'
    ∧ queue_key queue = (worker_runtimeEnvironmentId worker, queueName task)
    ∧ marqs w' =
        match truthy_number (tq_concurrencyLimit queue) with
        | Some limit =>
            (λ calls, calls ++ [ {| cu_env := env; cu_queue := queueName task;
                                    cu_limit := limit |} ]) <$> marqs w
        | None => marqs w
        end
    ∧ (unique_queues w → unique_queues w').
Proof.
  unfold createBackgroundTask, generateFriendlyId, backgroundWorkerTask_create,
    taskQueue_upsert, updateQueueConcurrency. run.
  set (key := (worker_runtimeEnvironmentId worker, queueName task)).
  set (update := taskQueue_update _ _).
  set (create := Build_TaskQueue _ _ _ _ _ _ _).
  destruct (upsert_row key update create (taskQueues w)) as [queue rows] eqn:E. run.
  assert (Hupd : ∀ q, queue_key (update q) = queue_key q) by done.
  pose proof (upsert_row_keys_prefix key update create _ _ _ Hupd E) as Hprefix.
  pose proof (upsert_row_elem key update create _ _ _ Hupd eq_refl E) as [Hin Hkey].
  assert (Hother : ∀ key', key' ≠ key →
    filter (λ q, queue_key q = key') rows = filter (λ q, queue_key q = key') (taskQueues w)).
  { intros key' Hne.
    exact (upsert_row_other key key' update create _ _ _ Hupd eq_refl Hne E). }
  assert (Hname : tq_name queue = queueName task) by (by injection Hkey).
  assert (Hunique : NoDup (queue_key <$> taskQueues w) → NoDup (queue_key <$> rows)).
  { intros Hnodup.
    by destruct (upsert_row_unique key update create _ _ _ Hupd eq_refl Hnodup E). }
  destruct (truthy_number (tq_concurrencyLimit queue)) as [limit|] eqn:Hlimit; run;
    eexists _, _, queue; (split; [reflexivity |]); simpl; rewrite ?Hname, ?Hlimit;
    (repeat split; try done; intros key' Hne; unfold queues_at; simpl; by apply Hother).
Qed.

(** **** The loop *)

Lemma createBackgroundTasks_nil worker env w :
  createBackgroundTasks imports [] worker env w = (Ok tt, w).
Proof. reflexivity. Qed.

Lemma createBackgroundTasks_cons task tasks worker env w w1 :
  createBackgroundTask imports worker env task w = (Ok tt, w1) →
  createBackgroundTasks imports (task :: tasks) worker env w
  = createBackgroundTasks imports tasks worker env w1.
Proof.
  intros E. unfold createBackgroundTasks. simpl. unfold mbind, M_bind. by rewrite E.
Qed.

Lemma fmap_snoc_snoc {A} (m : option (list A)) (l1 l2 : list A) :
  (λ l, l ++ l2) <$> ((λ l, l ++ l1) <$> m) = (λ l, l ++ (l1 ++ l2)) <$> m.
Proof. destruct m; simpl; [by rewrite <- app_assoc | done]. Qed.

(** What the loop does to the world, all in one. *)
Lemma createBackgroundTasks_loop tasks worker env w :
  ∃ w' taskRows new,
    createBackgroundTasks imports tasks worker env w = (Ok tt, w')
    ∧ projects w' = projects w
    ∧ backgroundWorkers w' = backgroundWorkers w
    ∧ now w' = now w
    ∧ backgroundWorkerTasks w' = backgroundWorkerTasks w ++ taskRows
    ∧ Forall2 (written_for worker) tasks taskRows
    ∧ (queue_key <$> taskQueues w) `prefix_of` (queue_key <$> taskQueues w')
    ∧ (∀ key, key.1 ≠ worker_runtimeEnvironmentId worker →
         queues_at key w' = queues_at key w)
    ∧ (∀ task, task ∈ tasks →
         (worker_runtimeEnvironmentId worker, queueName task)
         ∈ queue_key <$> taskQueues w')
    ∧ marqs w' = (λ calls, calls ++ new) <$> marqs w
    ∧ length new ≤ length tasks
    ∧ Forall (λ u, cu_env u = env ∧ cu_limit u ≠ 0%Z
                   ∧ ∃ task, task ∈ tasks ∧ cu_queue u = queueName task) new
    ∧ (unique_queues w → unique_queues w').
Proof.
  revert w. induction tasks as [|task tasks IH]; intros w.
  { exists w, [], []. rewrite createBackgroundTasks_nil.
    repeat split; try done.
    - by rewrite app_nil_r.
    - intros task Hin. by apply elem_of_nil in Hin.
    - destruct (marqs w); simpl; by rewrite ?app_nil_r. }
  destruct (createBackgroundTask_step worker env task w)
    as (w1 & taskRow & queue & E1 & Hp1 & Hb1 & Hn1 & Ht1 & Hwritten & Hprefix1
        & Hother1 & Hin1 & Hkey1 & Hmarqs1 & Hunique1).
  destruct (IH w1)
    as (w2 & taskRows & new & E2 & Hp2 & Hb2 & Hn2 & Ht2 & Hwritten2 & Hprefix2
        & Hother2 & Hexists2 & Hmarqs2 & Hlen2 & Hnew2 & Hunique2).
  set (first := match truthy_number (tq_concurrencyLimit queue) with
                | Some limit => [ {| cu_env := env; cu_queue := queueName task;
                                     cu_limit := limit |} ]
                | None => []
                end).
  exists w2, (taskRow :: taskRows), (first ++ new).
  rewrite (createBackgroundTasks_cons _ _ _ _ _ _ E1).
  split; [done |]. split; [congruence |]. split; [congruence |].
  split; [congruence |].
  split. { rewrite Ht2, Ht1. by rewrite <- app_assoc. }
  split; [by constructor |].
  split; [by etransitivity |].
  split.
  { intros key Hkey. rewrite Hother2 by done. apply Hother1.
    intros ->. by apply Hkey. }
  split.
  { intros task' [->|Hin]%elem_of_cons; [| by apply Hexists2].
    eapply elem_of_prefix; [| exact Hprefix2].
    apply list_elem_of_fmap. by exists queue. }
  split.
  { rewrite Hmarqs2, Hmarqs1. subst first.
    destruct (truthy_number (tq_concurrencyLimit queue)).
    - apply fmap_snoc_snoc.
    - done. }
  split.
  { subst first. rewrite length_app.
    destruct (truthy_number (tq_concurrencyLimit queue)); simpl; lia. }
  split; [| by intros ?; apply Hunique2, Hunique1].
  apply Forall_app. split.
  - subst first.
    destruct (tq_concurrencyLimit queue) as [limit|] eqn:Hlimit; simpl; [| done].
    destruct (decide (limit = 0%Z)); [done |].
    apply Forall_singleton. simpl. split; [done |]. split; [done |].
    exists task. split; [left | done].
  - eapply Forall_impl; [exact Hnew2 |]. simpl.
    intros u (? & ? & task' & ? & ?). split; [done |]. split; [done |].
    exists task'. split; [by right | done].
Qed.

(** **** [call], outcome by outcome *)

Lemma call_cases projectRef environment body w r w' :
  call imports projectRef environment body w = (r, w') →
  (list_find (matches_project projectRef (env_id environment)) (projects w) = None
   ∧ r = Throw "No Project found" ∧ w' = w)
  ∨ (∃ latest,
       latest_worker projectRef (env_id environment) w = Some latest
       ∧ worker_contentHash latest = contentHash (metadata body)
       ∧ r = Ok latest ∧ w' = w)
  ∨ (∃ i project worker w1,
       list_find (matches_project projectRef (env_id environment)) (projects w)
       = Some (i, project)
       ∧ (∀ latest, latest_worker projectRef (env_id environment) w = Some latest →
                    worker_contentHash latest ≠ contentHash (metadata body))
       ∧ created_from imports environment project body
           (latest_worker projectRef (env_id environment) w) worker
       ∧ worker_createdAt worker = now w
       ∧ projects w1 = projects w
       ∧ backgroundWorkers w1 = backgroundWorkers w ++ [worker]
       ∧ backgroundWorkerTasks w1 = backgroundWorkerTasks w
       ∧ taskQueues w1 = taskQueues w
       ∧ marqs w1 = marqs w
       ∧ now w1 = S (now w)
       ∧ createBackgroundTasks imports (tasks (metadata body)) worker environment w1
         = (Ok tt, w')
       ∧ r = Ok worker).
Proof.
  unfold call, latest_worker, project_findUniqueOrThrow. run.
  destruct (list_find _ (projects w)) as [[i project]|] eqn:Hfind; run.
  2:{ intros [= <- <-]. by left. }
  set (latest := head (include_backgroundWorkers project (env_id environment) w)).
  assert (Hcreate : ∀ r w',
    (workerFriendlyId ← generateFriendlyId imports "worker";
     backgroundWorker ←
       backgroundWorker_create imports workerFriendlyId
         (calculateNextBuildVersion imports (worker_version <$> latest))
         (env_id environment) (project_id project) (metadata body);
     createBackgroundTasks imports (tasks (metadata body)) backgroundWorker
       environment ;;
     mret backgroundWorker) w = (r, w') →
    ∃ worker w1,
      created_from imports environment project body latest worker
      ∧ worker_createdAt worker = now w
      ∧ projects w1 = projects w
      ∧ backgroundWorkers w1 = backgroundWorkers w ++ [worker]
      ∧ backgroundWorkerTasks w1 = backgroundWorkerTasks w
      ∧ taskQueues w1 = taskQueues w
      ∧ marqs w1 = marqs w
      ∧ now w1 = S (now w)
      ∧ createBackgroundTasks imports (tasks (metadata body)) worker environment w1
        = (Ok tt, w')
      ∧ r = Ok worker).
  { intros r0 w0. unfold generateFriendlyId, backgroundWorker_create, generateRowId,
      timestamp. run.
    match goal with
    | |- context [createBackgroundTasks imports ?ts ?bw ?e ?w1] =>
        destruct (createBackgroundTasks_frame imports ts bw e w1) as (w2 & E & _);
        rewrite E; intros [= <- <-]; exists bw, w1
    end.
    repeat split; done. }
  destruct latest as [l|] eqn:Hlatest.
  - destruct (decide _) as [Hhash|Hhash].
    + run. intros [= <- <-]. right. left. by exists l.
    + intros Hrun. right. right.
      destruct (Hcreate _ _ Hrun) as (worker & w1 & H).
      exists i, project, worker, w1. split; [done |].
      split; [by intros ? [= <-] |]. done.
  - intros Hrun. right. right.
    destruct (Hcreate _ _ Hrun) as (worker & w1 & H).
    exists i, project, worker, w1. split; [done |]. split; [done |]. done.
Qed.

(** An upsert on a key that is there rewrites the row in place. *)
Lemma taskQueue_upsert_existing friendly worker task w old :
  unique_queues w →
  queues_at (worker_runtimeEnvironmentId worker, queueName task) w = [old] →
  ∃ w',
    taskQueue_upsert friendly worker task w
    = (Ok (taskQueue_update (task_queue task ≫= queue_concurrencyLimit)
             (task_queue task ≫= queue_rateLimit) old), w')
    ∧ length (taskQueues w') = length (taskQueues w).
Proof.
  intros Hunique Hold. unfold taskQueue_upsert. run.
  set (key := (worker_runtimeEnvironmentId worker, queueName task)) in *.
  set (update := taskQueue_update _ _).
  set (create := Build_TaskQueue _ _ _ _ _ _ _).
  assert (Hin : key ∈ (queue_key <$> taskQueues w)).
  { apply list_elem_of_fmap. exists old. split.
    - assert (Hold' : old ∈ queues_at key w) by (rewrite Hold; left).
      by apply list_elem_of_filter in Hold' as [? _].
    - assert (Hold' : old ∈ queues_at key w) by (rewrite Hold; left).
      by apply list_elem_of_filter in Hold' as [_ ?]. }
  destruct (upsert_row_present key update create _ Hin)
    as (before & old' & after & Hrows & Hkey & Hbefore & ->).
  assert (old' = old) as ->.
  { assert (Hold' : old' ∈ queues_at key w).
    { unfold queues_at. rewrite Hrows. apply list_elem_of_filter. split; [done |].
      apply elem_of_app. right. left. }
    rewrite Hold in Hold'. by apply list_elem_of_singleton in Hold'. }
  run. eexists. split; [reflexivity |]. simpl.
  rewrite Hrows, !length_app. done.
Qed.

End more.

(** X1: [call] keeps the unique key of the queue table: whatever it is asked
    to register, and however it ends, no two queue rows share an environment
    and a name afterwards if none did before. *)
Theorem call_keeps_queues_unique (imports : Imports) projectRef environment body w :
  unique_queues w →
  unique_queues (call imports projectRef environment body w).2.
Proof.
  intros Hunique.
  destruct (call imports projectRef environment body w) as [r w'] eqn:E.
  apply call_cases in E as [(_ & _ & ->) | [(latest & _ & _ & _ & ->) | H]]; [done.. |].
  destruct H as (i & project & worker & w1 & _ & _ & _ & _ & _ & _ & _ & Hq & _ & _ & E & _).
  destruct (createBackgroundTasks_loop imports (tasks (metadata body)) worker
              environment w1) as (w2 & ? & ? & E' & H).
  rewrite E in E'. injection E' as <-.
  simpl. apply H. unfold unique_queues. by rewrite Hq.
Qed.

Lemma call_keeps_queues_unique_witness :
  unique_queues
    (call sample_imports "proj_1" sample_environment
       (sample_body "B" (Some (shared_queue (Some 9%Z)))) (world_with_shared (Some 5%Z))).2.
Proof.
  apply call_keeps_queues_unique.
  apply NoDup_singleton.
Defined.

(** X2: [call] deletes and reorders nothing: the projects are as they were,
    the worker and task tables are extended at the end, and the keys of the
    queue table are extended at the end, each queue staying in its place. *)
Theorem call_only_appends (imports : Imports) projectRef environment body w :
  let w' := (call imports projectRef environment body w).2 in
  projects w' = projects w
  ∧ backgroundWorkers w `prefix_of` backgroundWorkers w'
  ∧ backgroundWorkerTasks w `prefix_of` backgroundWorkerTasks w'
  ∧ (queue_key <$> taskQueues w) `prefix_of` (queue_key <$> taskQueues w').
Proof.
  destruct (call imports projectRef environment body w) as [r w'] eqn:E. simpl.
  apply call_cases in E as [(_ & _ & ->) | [(latest & _ & _ & _ & ->) | H]]; [done.. |].
  destruct H as (i & project & worker & w1 & _ & _ & _ & _ & Hp & Hb & Ht & Hq & _ & _ & E & _).
  destruct (createBackgroundTasks_loop imports (tasks (metadata body)) worker
              environment w1)
    as (w2 & rows & new & E' & Hp2 & Hb2 & _ & Ht2 & _ & Hq2 & _).
  rewrite E in E'. injection E' as <-.
  split; [congruence |].
  split. { rewrite Hb2, Hb. by apply prefix_app_r. }
  split. { rewrite Ht2, Ht. by apply prefix_app_r. }
  by rewrite <- Hq.
Qed.



(** X4: the worker that [call] returns is a row of the worker table, belongs
    to the environment of the call and carries the content hash of the
    body, whether it was found or created. *)
Theorem call_returns_stored_worker (imports : Imports) projectRef environment body w
    worker w' :
  call imports projectRef environment body w = (Ok worker, w') →
  worker ∈ backgroundWorkers w'
  ∧ worker_runtimeEnvironmentId worker = env_id environment
  ∧ worker_contentHash worker = contentHash (metadata body).
Proof.
  intros E.
  apply call_cases in E as [(_ & ? & _) | [(latest & Hlatest & ? & [= <-] & ->) | H]];
    [done | |].
  - apply latest_worker_newest in Hlatest as (? & ? & _). done.
  - destruct H as (i & project & worker' & w1 & _ & _ & Hcreated & _ & _ & Hb
                   & _ & _ & _ & _ & E & [= <-]).
    destruct (createBackgroundTasks_loop imports (tasks (metadata body)) worker
                environment w1) as (w2 & rows & new & E' & _ & Hb2 & _).
    rewrite E in E'. injection E' as <-.
    destruct Hcreated as (_ & ? & _ & _ & ? & _).
    split; [| done]. rewrite Hb2, Hb. apply elem_of_app. right. left.
Qed.

Lemma call_returns_stored_worker_witness :
  let result := call sample_imports "proj_1" sample_environment
                  (sample_body "A" None) sample_world in
  match result.1 with
  | Ok worker =>
      worker ∈ backgroundWorkers result.2
      ∧ worker_runtimeEnvironmentId worker = "env_prod"
      ∧ worker_contentHash worker = "A"
  | Throw _ => False
  end.
Proof.
  intros result.
  destruct result as [[worker|e] w'] eqn:E; simpl; [| by vm_compute in E].
  exact (call_returns_stored_worker sample_imports _ _ _ _ _ _ E).
Defined.

(** X5: against a database whose writes succeed, [call] throws exactly when
    no project has the reference and the environment; it then throws
    [No Project found] and writes nothing. In every other case it returns a
    worker. *)
Theorem call_throws_iff_no_project (imports : Imports) projectRef environment body w :
  let result := call imports projectRef environment body w in
  (Forall (λ p, ¬ matches_project projectRef (env_id environment) p) (projects w)
   ↔ result = (Throw "No Project found", w))
  ∧ (∀ error, result.1 = Throw error →
       Forall (λ p, ¬ matches_project projectRef (env_id environment) p) (projects w)).
Proof.
  intros result. subst result. split.
  - split.
    + intros Hnone. apply call_no_project. by apply list_find_None.
    + intros E. apply call_cases in E as [(Hfind & _) | [(? & _ & _ & ? & _) | H]].
      * by apply list_find_None in Hfind.
      * done.
      * by destruct H as (? & ? & ? & ? & _ & _ & _ & _ & _ & _ & _ & _ & _ & _ & _ & ?).
  - intros error Herror.
    destruct (call imports projectRef environment body w) as [r w'] eqn:E.
    simpl in Herror. subst r.
    apply call_cases in E as [(Hfind & _) | [(? & _ & _ & ? & _) | H]].
    + by apply list_find_None in Hfind.
    + done.
    + by destruct H as (? & ? & ? & ? & _ & _ & _ & _ & _ & _ & _ & _ & _ & _ & _ & ?).
Qed.

(** X6: [createBackgroundTasks] calls [updateQueueConcurrency] at most once
    for each task, always for the environment it was given and for the queue
    of one of the tasks, and never with the limit 0; without [marqs] it calls
    nothing. *)
Theorem createBackgroundTasks_admission_calls (imports : Imports) tasks worker env w :
  let w' := (createBackgroundTasks imports tasks worker env w).2 in
  ∃ new,
    marqs w' = (λ calls, calls ++ new) <$> marqs w
    ∧ length new ≤ length tasks
    ∧ Forall (λ u, cu_env u = env ∧ cu_limit u ≠ 0%Z
                   ∧ ∃ task, task ∈ tasks ∧ cu_queue u = queueName task) new.
Proof.
  destruct (createBackgroundTasks_loop imports tasks worker env w)
    as (w2 & rows & new & E & _ & _ & _ & _ & _ & _ & _ & _ & Hmarqs & Hlen & Hnew & _).
  rewrite E. simpl. by exists new.
Qed.

(** X7: a call for one environment leaves the workers and the queues of
    every other environment as they were. *)
Theorem call_leaves_other_environments (imports : Imports) projectRef environment body
    w (other : string) :
  other ≠ env_id environment →
  let w' := (call imports projectRef environment body w).2 in
  workers_of other w' = workers_of other w
  ∧ ∀ name, queues_at (other, name) w' = queues_at (other, name) w.
Proof.
  intros Hother.
  destruct (call imports projectRef environment body w) as [r w'] eqn:E. simpl.
  apply call_cases in E as [(_ & _ & ->) | [(latest & _ & _ & _ & ->) | H]]; [done.. |].
  destruct H as (i & project & worker & w1 & _ & _ & Hcreated & _ & _ & Hb & _ & Hq
                 & _ & _ & E & _).
  destruct Hcreated as (_ & Henv & _).
  destruct (createBackgroundTasks_loop imports (tasks (metadata body)) worker
              environment w1)
    as (w2 & rows & new & E' & _ & Hb2 & _ & _ & _ & _ & Hqueues & _).
  rewrite E in E'. injection E' as <-.
  split.
  - unfold workers_of. rewrite Hb2, Hb, filter_app, filter_cons_False, filter_nil.
    + by rewrite app_nil_r.
    + by rewrite Henv.
  - intros name. rewrite Hqueues.
    + unfold queues_at. by rewrite Hq.
    + simpl. by rewrite Henv.
Qed.

Lemma call_leaves_other_environments_witness :
  let w' := (call sample_imports "proj_1" {| env_id := "env_staging" |}
               (sample_body "B" (Some (shared_queue (Some 9%Z))))
               (world_with_shared (Some 5%Z))).2 in
  workers_of "env_prod" w' = workers_of "env_prod" (world_with_shared (Some 5%Z))
  ∧ ∀ name, queues_at ("env_prod", name) w'
            = queues_at ("env_prod", name) (world_with_shared (Some 5%Z)).
Proof.
  apply (call_leaves_other_environments sample_imports "proj_1"
           {| env_id := "env_staging" |}).
  discriminate.
Defined.

(** X8: registering a task whose queue is there already rewrites that row in
    place: name, type, friendly id and project stay, the limits change only
    where the task declares one, no row is added, and the admission layer is
    told the limit the row has afterwards, also when that is the old one. *)
Theorem createBackgroundTasks_existing_queue (imports : Imports) worker env task w old :
  unique_queues w →
  queues_at (worker_runtimeEnvironmentId worker, queueName task) w = [old] →
  let w' := (createBackgroundTasks imports [task] worker env w).2 in
  let limit := update_column (task_queue task ≫= queue_concurrencyLimit)
                 (tq_concurrencyLimit old) in
  ∃ row,
    queues_at (worker_runtimeEnvironmentId worker, queueName task) w' = [row]
    ∧ length (taskQueues w') = length (taskQueues w)
    ∧ tq_name row = tq_name old
    ∧ tq_type row = tq_type old
    ∧ tq_friendlyId row = tq_friendlyId old
    ∧ tq_projectId row = tq_projectId old
    ∧ tq_concurrencyLimit row = limit
    ∧ tq_rateLimit row
      = update_column (task_queue task ≫= queue_rateLimit) (tq_rateLimit old)
    ∧ marqs w' =
        match truthy_number limit with
        | Some l =>
            (λ calls, calls ++ [ {| cu_env := env; cu_queue := tq_name old;
                                    cu_limit := l |} ]) <$> marqs w
        | None => marqs w
        end.
Proof.
  intros Hunique Hold w' limit. subst w' limit.
  destruct (createBackgroundTask_spec imports worker env task w Hunique)
    as (row & w0 & w' & Hupsert & Hrun & Hqueues & _ & Hmarqs).
  destruct (taskQueue_upsert_spec (friendlyId imports "queue" (S (entropy w)))
              worker task w Hunique)
    as (row' & w0' & Hupsert' & _ & Hone & _).
  destruct (taskQueue_upsert_existing (friendlyId imports "queue" (S (entropy w)))
              worker task w old Hunique Hold) as (w0'' & Hupsert'' & Hlen).
  rewrite Hupsert in Hupsert', Hupsert''.
  injection Hupsert' as <- <-. injection Hupsert'' as -> <-.
  rewrite (createBackgroundTasks_cons imports task [] worker env w w' Hrun).
  rewrite createBackgroundTasks_nil. simpl.
  eexists. split. { unfold queues_at in *. rewrite Hqueues. exact Hone. }
  split; [by rewrite Hqueues |].
  repeat (split; [done |]).
  by rewrite Hmarqs.
Qed.

Lemma createBackgroundTasks_existing_queue_witness :
  let w' := (createBackgroundTasks sample_imports [sample_task (Some (shared_queue None))]
               sample_worker sample_environment (world_with_shared (Some 5%Z))).2 in
  ∃ row,
    queues_at ("env_prod", "shared") w' = [row]
    ∧ tq_concurrencyLimit row = Some 5%Z
    ∧ marqs w' = Some [ {| cu_env := sample_environment; cu_queue := "shared";
                           cu_limit := 5 |} ].
Proof.
  intros w'.
  destruct (createBackgroundTasks_existing_queue sample_imports sample_worker
              sample_environment (sample_task (Some (shared_queue None)))
              (world_with_shared (Some 5%Z))
              {| tq_friendlyId := "queue_0"; tq_name := "shared";
                 tq_concurrencyLimit := Some 5%Z;
                 tq_runtimeEnvironmentId := "env_prod"; tq_projectId := "p1";
                 tq_rateLimit := None; tq_type := NAMED |})
    as (row & Hone & _ & _ & _ & _ & _ & Hlimit & _ & Hmarqs).
  - apply NoDup_singleton.
  - reflexivity.
  - exists row. split; [exact Hone |]. split; [exact Hlimit | exact Hmarqs].
Defined.

(** X9: [createBackgroundTasks] writes one task row for each task, in the
    order of the tasks and for the worker it was given, and afterwards the
    queue table has a row for the queue of every task, in the environment
    of the worker. *)
Theorem createBackgroundTasks_rows (imports : Imports) tasks worker env w :
  let w' := (createBackgroundTasks imports tasks worker env w).2 in
  (∃ rows, backgroundWorkerTasks w' = backgroundWorkerTasks w ++ rows
           ∧ Forall2 (written_for worker) tasks rows)
  ∧ ∀ task, task ∈ tasks →
      ∃ queue, queue ∈ taskQueues w'
               ∧ tq_runtimeEnvironmentId queue = worker_runtimeEnvironmentId worker
               ∧ tq_name queue = queueName task.
Proof.
  destruct (createBackgroundTasks_loop imports tasks worker env w)
    as (w2 & rows & new & E & _ & _ & _ & Ht & Hwritten & _ & _ & Hexists & _).
  rewrite E. simpl. split; [by exists rows |].
  intros task Hin. apply Hexists in Hin.
  apply list_elem_of_fmap in Hin as (queue & Hkey & Hin).
  exists queue. split; [done |]. by injection Hkey as <- <-.
Qed.

End RegistryMore.

(* ===== further properties: deploy ===== *)
Module DeployMore.
Import Deploy DeployNotions DeployFacts.

Section poll_more.
Context (client : Client) (timeoutInSeconds start : Z).

Abbreviation poll_from c := (poll client timeoutInSeconds start c).

(** A deployment that is handed back is the answer to the last request. *)
Lemma poll_returns_last_answer c data :
  (poll_from c).1 = Returned (Some data) →
  ∃ k, length (requests (poll_from c).2) = S k
       ∧ length (requests c) ≤ k
       ∧ reply client k = Success data
       ∧ deployment_status data = "DEPLOYED".
Proof.
  funelim (poll_from c); simpl; try done.
  - intros [= <-]. exists (length (requests c)).
    rewrite length_app. simpl. split; [lia |]. split; [done |]. done.
  - intros Hret. destruct (H _ Hret) as (k & Hlen & Hk & Hreply & Hstatus).
    exists k. split; [done |]. split; [| done].
    simpl in Hk. rewrite length_app in Hk. simpl in Hk. lia.
Qed.

(** Each round uses up a second: the requests are bounded by the time that
    is left. *)
Lemma poll_requests_bounded c :
  (Z.of_nat (length (requests (poll_from c).2) - length (requests c)) * 1000
   ≤ Z.max 0 (timeoutInSeconds * 1000 + 1000 - (time c - start)))%Z.
Proof.
  funelim (poll_from c); simpl.
  - rewrite Nat.sub_diag. lia.
  - rewrite length_app. simpl. lia.
  - rewrite length_app. simpl. lia.
  - destruct (poll_requests_prefix client timeoutInSeconds start
                (setTimeout client 1000 (getDeployment_clock client c))) as [new Hnew].
    rewrite Hnew in H |- *. simpl in H |- *.
    rewrite !length_app in H |- *. simpl in H |- *. lia.
Qed.

(** The loop hands back the first [DEPLOYED] answer, if the request for it
    goes out inside the time box. *)
Lemma poll_reaches_deployed k : ∀ c data,
  (∀ i, i < k → ∃ d, reply client (length (requests c) + i) = Success d
                     ∧ deployment_status d ≠ "DEPLOYED") →
  reply client (length (requests c) + k) = Success data →
  deployment_status data = "DEPLOYED" →
  (time c - start + rounds client (length (requests c)) k
   ≤ timeoutInSeconds * 1000)%Z →
  (poll_from c).1 = Returned (Some data)
  ∧ length (requests (poll_from c).2) = length (requests c) + S k.
Proof.
  induction k as [|k IH]; intros c data Hbefore Hreply Hstatus Htime.
  - simpl in Htime. rewrite Nat.add_0_r in Hreply. simp poll.
    destruct (decide _) as [?|?]; [lia |]. simpl.
    unfold getDeployment_answer. rewrite Hreply. simpl.
    destruct (decide _) as [?|?]; [| done]. simpl.
    rewrite length_app. simpl. split; [done | lia].
  - simp poll. simpl in Htime.
    pose proof (N2Z.is_nonneg (latency client (length (requests c)))).
    pose proof (N2Z.is_nonneg (lag client (length (requests c)))).
    assert (Hrounds : ∀ n m, (0 ≤ rounds client n m)%Z).
    { intros n m. revert n. induction m as [|m IHm]; intros n; simpl; [lia |].
      specialize (IHm (S n)).
      pose proof (N2Z.is_nonneg (latency client n)).
      pose proof (N2Z.is_nonneg (lag client n)). lia. }
    pose proof (Hrounds (S (length (requests c))) k).
    destruct (decide _) as [?|?]; [lia |]. simpl.
    destruct (Hbefore 0) as (d & Hd & Hnot); [lia |].
    rewrite Nat.add_0_r in Hd.
    unfold getDeployment_answer. rewrite Hd. simpl.
    destruct (decide _) as [?|?]; [done |]. simpl.
    set (c2 := setTimeout client 1000 (getDeployment_clock client c)).
    assert (Hlen : length (requests c2) = S (length (requests c))).
    { subst c2. simpl. rewrite length_app. simpl. lia. }
    destruct (IH c2 data) as [Hres Hcount].
    + intros i Hi. rewrite Hlen. destruct (Hbefore (S i)) as (d' & Hd' & ?); [lia |].
      exists d'. split; [| done]. rewrite <- Hd'. f_equal. lia.
    + rewrite Hlen. rewrite <- Hreply. f_equal. lia.
    + done.
    + rewrite Hlen. subst c2. simpl. rewrite length_app. simpl.
      replace (length (requests c) + 1 - 1) with (length (requests c)) by lia. lia.
    + split; [done |]. rewrite Hcount, Hlen. lia.
Qed.

End poll_more.

(** X10: [waitForDeploymentToComplete] hands back a deployment only if the
    platform reported it [DEPLOYED], and what it hands back is the answer to
    the last request it made. *)
Theorem wait_returns_deployed_only (client : Client) (timeoutInSeconds : option Z)
    (c : Clock) (data : Deployment) :
  let result := waitForDeploymentToComplete client timeoutInSeconds c in
  result.1 = Returned (Some data) →
  deployment_status data = "DEPLOYED"
  ∧ ∃ k, length (requests result.2) = S k
         ∧ length (requests c) ≤ k
         ∧ reply client k = Success data.
Proof.
  intros result Hret. subst result. unfold waitForDeploymentToComplete in *.
  apply poll_returns_last_answer in Hret as (k & ? & ? & ? & ?).
  split; [done |]. by exists k.
Qed.

Lemma wait_returns_deployed_only_witness :
  let result := waitForDeploymentToComplete (deployed_at 3) None clock0 in
  ∃ k, length (requests result.2) = S k ∧ 0 ≤ k
       ∧ reply (deployed_at 3) k
         = Success {| deployment_id := "dep_1"; deployment_status := "DEPLOYED" |}.
Proof.
  intros result.
  destruct (wait_returns_deployed_only (deployed_at 3) None clock0
              {| deployment_id := "dep_1"; deployment_status := "DEPLOYED" |})
    as [_ H].
  - vm_compute. reflexivity.
  - exact H.
Defined.

(** X11: with a timeout of [t] seconds the function makes at most [t + 1]
    status requests (none when [t] is negative), however the platform
    answers and however long the answers take. *)
Theorem wait_requests_bounded (client : Client) (timeoutInSeconds : option Z)
    (c : Clock) :
  let result := waitForDeploymentToComplete client timeoutInSeconds c in
  (Z.of_nat (length (requests result.2) - length (requests c))
   ≤ Z.max 0 (default 60 timeoutInSeconds + 1))%Z.
Proof.
  intros result. subst result. unfold waitForDeploymentToComplete.
  pose proof (poll_requests_bounded client (default 60%Z timeoutInSeconds) (time c) c).
  lia.
Qed.

(** X12: when the answers before the [k]-th are successes with a status other
    than [DEPLOYED], the [k]-th reports [DEPLOYED], and the [k] rounds before
    it (request, one second of timer, overshoot) fit into the timeout, the
    function returns the deployment of the [k]-th answer after [k + 1]
    requests. *)
Theorem wait_reaches_deployed (client : Client) (timeoutInSeconds : option Z)
    (c : Clock) (k : nat) (data : Deployment) :
  (∀ i, i < k → ∃ d, reply client (length (requests c) + i) = Success d
                     ∧ deployment_status d ≠ "DEPLOYED") →
  reply client (length (requests c) + k) = Success data →
  deployment_status data = "DEPLOYED" →
  (rounds client (length (requests c)) k ≤ default 60 timeoutInSeconds * 1000)%Z →
  let result := waitForDeploymentToComplete client timeoutInSeconds c in
  result.1 = Returned (Some data)
  ∧ length (requests result.2) = length (requests c) + S k.
Proof.
  intros Hbefore Hreply Hstatus Htime result. subst result.
  unfold waitForDeploymentToComplete.
  apply poll_reaches_deployed; try done. lia.
Qed.

Lemma wait_reaches_deployed_witness :
  let result := waitForDeploymentToComplete (deployed_at 3) None clock0 in
  result.1 = Returned (Some {| deployment_id := "dep_1";
                               deployment_status := "DEPLOYED" |})
  ∧ length (requests result.2) = 4.
Proof.
  apply (wait_reaches_deployed (deployed_at 3) None clock0 3).
  - intros i Hi. eexists. split; [reflexivity |]. simpl.
    rewrite decide_True by done. discriminate.
  - reflexivity.
  - reflexivity.
  - vm_compute. discriminate.
Defined.

(** **** [deployCommand], run by run *)

Ltac run_cases :=
  unfold deployCommand, buildImage, getEnvironmentVariables,
    mbind, Cmd_bind, emit, finish, mret, Cmd_ret;
  repeat (cbv beta iota zeta;
          match goal with
          | |- context [match ?x with _ => _ end] =>
              lazymatch x with
              | context [match _ with _ => _ end] => fail
              | _ => destruct x eqn:?
              end
          end);
  simpl.

Ltac prefix_steps :=
  repeat first [ apply prefix_nil | apply prefix_cons_alt; [reflexivity |] ].

(** X13: whatever it is given, the command goes through its steps in one
    order and skips none: compile, fetch the variables, initialize the
    deployment with the content hash of the compilation, build the image tagged
    as the platform said, start the indexing of the initialized deployment,
    wait for that deployment. A run ends after some prefix of these. *)
Theorem deploy_steps_in_order (terminal : Terminal) (run : Run) :
  ∃ build imageReference,
    steps (deployCommand terminal run).1 `prefix_of` pipeline_of run build imageReference
    ∧ builds_for run build.
Proof.
  unfold steps, pipeline_of, builds_for, hash_of, deployment_of.
  run_cases.
  all: eexists _, _; (split; [prefix_steps | first [by left | by right]]).
  Unshelve. all: exact "".
Qed.


(** X14: the command exits with code 0 only when it was asked to skip the
    deployment; it has then built an image, and it has not started the
    indexing of the deployment. *)
Theorem deploy_exit_zero_only_skipped (terminal : Terminal) (run : Run) :
  (deployCommand terminal run).2 = inr (Exit 0) →
  (∃ options, run_options run = Success options ∧ skipDeploy options = true)
  ∧ Exists builds_image (deployCommand terminal run).1
  ∧ Forall (λ e, ¬ starts_indexing e) (deployCommand terminal run).1.
Proof.
  run_cases; try discriminate.
  all: intros _; split; [by eexists |].
  all: split; [| repeat constructor; simpl; tauto].
  all: repeat first [ by apply Exists_cons_hd | apply Exists_cons_tl ].
Qed.

Lemma deploy_exit_zero_only_skipped_witness :
  Exists builds_image (deployCommand sample_terminal (sample_run_with skipping_options (always "DEPLOYED"))).1
  ∧ Forall (λ e, ¬ starts_indexing e) (deployCommand sample_terminal (sample_run_with skipping_options (always "DEPLOYED"))).1.
Proof.
  apply (deploy_exit_zero_only_skipped sample_terminal
           (sample_run_with skipping_options (always "DEPLOYED"))).
  vm_compute. reflexivity.
Defined.

(** X15: the command runs to its end (rather than exiting, throwing, or
    returning early with the exit code 1 for want of a session) only after
    the platform reported the deployment [DEPLOYED] to
    [waitForDeploymentToComplete]; the last thing it does is to stop the
    spinner with the message of success. *)
Theorem deploy_completes_only_deployed (terminal : Terminal) (run : Run) :
  (deployCommand terminal run).2 = inl () →
  (∃ data,
     (waitForDeploymentToComplete (run_client run) None (run_clock run)).1
     = Returned (Some data)
     ∧ deployment_status data = "DEPLOYED")
  ∧ last (deployCommand terminal run).1
    = Some (SpinnerStop "Deployment completed successfully, you can now use this version").
Proof.
  run_cases; try discriminate.
  all: intros _; split; [| done].
  all: match goal with
       | H : (waitForDeploymentToComplete _ _ _).1 = Returned (Some ?d) |- _ =>
           exists d; split; [done |];
           unfold waitForDeploymentToComplete in H;
           by apply poll_returns_last_answer in H as (? & ? & ? & ? & ?)
       end.
Qed.

Lemma deploy_completes_only_deployed_witness :
  last (deployCommand sample_terminal (sample_run [] ∅ None)).1
  = Some (SpinnerStop "Deployment completed successfully, you can now use this version").
Proof.
  apply (deploy_completes_only_deployed sample_terminal (sample_run [] ∅ None)).
  vm_compute. reflexivity.
Defined.


(** X17: when the project compiled, the command never exits without saying
    why: the last thing before an exit is a spinner stopped with a message.
    The exit code is 0 or 1. *)
Theorem deploy_exit_is_announced (terminal : Terminal) (run : Run) (code : Z) :
  is_Some (run_compilation run) →
  (deployCommand terminal run).2 = inr (Exit code) →
  (∃ message, last (deployCommand terminal run).1 = Some (SpinnerStop message))
  ∧ (code = 0 ∨ code = 1)%Z.
Proof.
  intros [compilation Hcompilation]. revert Hcompilation.
  run_cases; try discriminate.
  all: intros _ [= <-]; split; [by eexists | lia].
Qed.

Lemma deploy_exit_is_announced_witness :
  ∃ message,
    last (deployCommand sample_terminal (sample_run ["API_KEY"] ∅ None)).1
    = Some (SpinnerStop message).
Proof.
  apply (deploy_exit_is_announced sample_terminal (sample_run ["API_KEY"] ∅ None) 1).
  - by eexists.
  - vm_compute. reflexivity.
Defined.

End DeployMore.

(* ===== properties: scanning ===== *)
Module ScanFacts.
Import Scan.

#[local] Arguments process_env : simpl never.

(** **** Strings and their characters *)

Lemma text_app (a b : string) : text (a +:+ b) = text a ++ text b.
Proof. induction a as [|c a IH]; simpl; [done |]. by rewrite <- IH. Qed.

Lemma string_of_text (s : string) : String.string_of_list_ascii (text s) = s.
Proof. apply String.string_of_list_ascii_of_string. Qed.

Lemma text_of_string (l : Text) : text (String.string_of_list_ascii l) = l.
Proof. apply String.list_ascii_of_string_of_list_ascii. Qed.

Lemma text_inj (a b : string) : text a = text b → a = b.
Proof. intros H. by rewrite <- (string_of_text a), <- (string_of_text b), H. Qed.

Lemma string_of_app (a b : Text) :
  String.string_of_list_ascii (a ++ b)
  = String.string_of_list_ascii a +:+ String.string_of_list_ascii b.
Proof. apply text_inj. by rewrite text_app, !text_of_string. Qed.

(** **** The pieces of the regular expression *)

Lemma after_literal_Some literal code rest :
  after_literal literal code = Some rest ↔ code = literal ++ rest.
Proof.
  revert code. induction literal as [|l literal IH]; intros code; simpl.
  - split; [by intros [= ->] | by intros ->].
  - destruct code as [|c code]; [done |].
    destruct (decide (l = c)) as [->|Hne].
    + rewrite IH. split; [by intros -> | by intros [= ->]].
    + split; [done | intros [= ? ?]; done].
Qed.

Lemma after_literal_app literal rest : after_literal literal (literal ++ rest) = Some rest.
Proof. by apply after_literal_Some. Qed.

Lemma name_run_spec code :
  ∃ post, code = name_run code ++ post
          ∧ forallb name_char (name_run code) = true
          ∧ from_option name_char false (head post) = false.
Proof.
  induction code as [|c code (post & Hcode & Hall & Hpost)]; simpl.
  - by exists [].
  - destruct (name_char c) eqn:Hc.
    + exists post. simpl. rewrite Hc, Hall. split; [by f_equal | done].
    + exists (c :: code). by simpl.
Qed.

Lemma name_run_app tail post :
  forallb name_char tail = true →
  from_option name_char false (head post) = false →
  name_run (tail ++ post) = tail.
Proof.
  intros Hall Hpost. induction tail as [|c tail IH]; simpl in *.
  - destruct post as [|c post]; simpl in *; [done |]. by rewrite Hpost.
  - apply andb_prop in Hall as [-> Hall]. by rewrite IH.
Qed.

(** After a name character the star never has to give anything back: the
    tail of a name is the longest run of name characters. *)
Lemma name_tail_run before code :
  name_char before = true → name_tail before code = Some (name_run code).
Proof.
  revert before. induction code as [|c code IH]; intros before Hbefore; simpl.
  - unfold boundary. simpl. by rewrite Hbefore.
  - destruct (name_char c) eqn:Hc.
    + by rewrite (IH c Hc).
    + unfold boundary. simpl. by rewrite Hbefore, Hc.
Qed.

Lemma name_start_char c : name_start c = true → name_char c = true.
Proof.
  unfold name_start, name_char. intros H.
  repeat (apply orb_prop in H as [H|H]); rewrite H; simpl;
    by rewrite ?orb_true_r.
Qed.

(** What a match at a position says of the text there. *)
Lemma match_here_Some before code name :
  match_here before code = Some name ↔
  ∃ post, code = process_env ++ name ++ post
          ∧ identifier name
          ∧ from_option name_char false before = false
          ∧ from_option name_char false (head post) = false.
Proof.
  unfold match_here. split.
  - destruct (boundary before (head code)) eqn:Hb; [| done].
    destruct (after_literal process_env code) as [[|c code']|] eqn:Hlit; [done | | done].
    apply after_literal_Some in Hlit as ->.
    destruct (name_start c) eqn:Hc; [| done].
    rewrite (name_tail_run c code' (name_start_char c Hc)). simpl. intros [= <-].
    destruct (name_run_spec code') as (post & Hcode & Hall & Hpost).
    exists post. split; [by rewrite Hcode at 1 |].
    split; [by exists c, (name_run code') |]. split; [| done].
    unfold boundary in Hb. simpl in Hb.
    by destruct (from_option name_char false before).
  - intros (post & -> & (c & tail & -> & Hc & Hall) & Hbefore & Hpost).
    unfold boundary. simpl. rewrite Hbefore. simpl.
    rewrite (name_tail_run c _ (name_start_char c Hc)).
    rewrite Hc. simpl. by rewrite (name_run_app tail post Hall Hpost).
Qed.

(** **** The scan *)

(** Every match of the scan is a reference that stands in the text. *)
Lemma matchAll_sound code : ∀ skip seen name,
  name ∈ matchAll skip (last seen) code →
  ∃ pre post, seen ++ code = pre ++ process_env ++ name ++ post
              ∧ identifier name
              ∧ from_option name_char false (last pre) = false
              ∧ from_option name_char false (head post) = false.
Proof.
  induction code as [|c code IH]; intros skip seen name; simpl.
  - by intros ?%elem_of_nil.
  - assert (Hnext : ∀ skip', name ∈ matchAll skip' (Some c) code →
      ∃ pre post, seen ++ c :: code = pre ++ process_env ++ name ++ post
                  ∧ identifier name
                  ∧ from_option name_char false (last pre) = false
                  ∧ from_option name_char false (head post) = false).
    { intros skip' Hin. specialize (IH skip' (seen ++ [c]) name).
      rewrite last_snoc, <- app_assoc in IH. by apply IH. }
    destruct skip as [|skip]; [| by apply Hnext].
    destruct (match_here (last seen) (c :: code)) as [found|] eqn:Hmatch;
      [| by apply Hnext].
    intros [->|Hin]%elem_of_cons; [| by apply (Hnext _ Hin)].
    apply match_here_Some in Hmatch as (post & Hcode & Hid & Hbefore & Hpost).
    exists seen, post. by rewrite Hcode.
Qed.

(** **** Sets *)

Lemma Set_from_foldl {A} `{EqDecision A} (items : list A) : ∀ set,
  NoDup set →
  let result :=
    foldl (λ set item, if decide (item ∈ set) then set else set ++ [item]) set items in
  NoDup result ∧ ∀ x, x ∈ result ↔ x ∈ set ∨ x ∈ items.
Proof.
  induction items as [|item items IH]; intros set Hset; simpl.
  - split; [done |]. intros x. rewrite elem_of_nil. tauto.
  - destruct (decide (item ∈ set)) as [Hin|Hnot].
    + destruct (IH set Hset) as [Hnd Helem]. split; [done |].
      intros x. rewrite Helem, elem_of_cons. split; [tauto |].
      intros [?|[->|?]]; tauto.
    + destruct (IH (set ++ [item])) as [Hnd Helem].
      { apply NoDup_app. split; [done |]. split; [| apply NoDup_singleton].
        intros x Hx ->%list_elem_of_singleton. done. }
      split; [done |]. intros x.
      rewrite Helem, elem_of_app, list_elem_of_singleton, elem_of_cons. tauto.
Qed.

Lemma NoDup_Set_from {A} `{EqDecision A} (items : list A) : NoDup (Set_from items).
Proof. apply (Set_from_foldl items []), NoDup_nil_2. Qed.

Lemma elem_of_Set_from {A} `{EqDecision A} (items : list A) x :
  x ∈ Set_from items ↔ x ∈ items.
Proof.
  unfold Set_from.
  destruct (Set_from_foldl items [] (NoDup_nil_2)) as [_ Helem].
  rewrite Helem, elem_of_nil. tauto.
Qed.

Lemma elem_of_references code name :
  name ∈ findAllEnvironmentVariableReferences code
  ↔ name ≠ "" ∧ text name ∈ matchAll 0 None (text code).
Proof.
  unfold findAllEnvironmentVariableReferences.
  rewrite elem_of_Set_from, list_elem_of_filter, list_elem_of_fmap.
  split.
  - intros [Hne (found & -> & Hin)]. split; [done |]. by rewrite text_of_string.
  - intros [Hne Hin]. split; [done |]. exists (text name).
    by rewrite string_of_text.
Qed.

Lemma last_text_app (a b : string) :
  b ≠ "" → last (text (a +:+ b)) = last (text b).
Proof.
  intros Hb. rewrite text_app. destruct b as [|c b]; [done |]. simpl.
  by rewrite last_app_cons.
Qed.


Lemma inside_step seen skip c code :
  inside seen (S skip) (c :: code) → inside (seen ++ [c]) skip code.
Proof.
  intros [?|(pre & name & post & k & -> & Hcode & Hlen & Hk & Hname)]; [done |].
  destruct skip as [|skip]; [by left |]. right.
  destruct (lookup_lt_is_Some_2 (process_env ++ name) k) as [c' Hc']; [lia |].
  rewrite (drop_S _ _ _ Hc') in Hcode. injection Hcode as -> ->.
  exists pre, name, post, (S k).
  rewrite (take_S_r _ _ _ Hc'), <- app_assoc.
  repeat split; [lia | lia | done].
Qed.

Lemma identifier_chars name : identifier name → forallb name_char name = true.
Proof.
  intros (c & tail & -> & Hc & Htail). simpl.
  by rewrite (name_start_char c Hc), Htail.
Qed.

Lemma inside_match seen before c code found :
  match_here before (c :: code) = Some found →
  inside (seen ++ [c]) (length process_env + length found - 1) code.
Proof.
  intros (post & Hcode & Hid & _ & _)%match_here_Some. right.
  exists seen, found, post, 1.
  change process_env with ("p"%char :: text "rocess.env.") in Hcode |- *.
  injection Hcode as -> ->. simpl.
  repeat split; [lia | lia | by apply identifier_chars].
Qed.

(** Inside a match, a reference begins only right after the literal. *)
Lemma inside_reference seen skip rest :
  inside seen skip (process_env ++ rest) →
  from_option name_char false (last seen) = false →
  ¬ process_env `suffix_of` seen →
  skip = 0.
Proof.
  intros [?|(pre & name & post & k & -> & Hcode & Hlen & Hk & Hname)] Hlast Hsuffix;
    [done |].
  exfalso.
  destruct (decide (k ≤ 12)) as [Hle|Hgt].
  - rewrite take_app_le in Hlast, Hsuffix by done.
    rewrite drop_app_le in Hcode by done.
    assert (Hcases : k = 1 ∨ k = 2 ∨ k = 3 ∨ k = 4 ∨ k = 5 ∨ k = 6 ∨ k = 7 ∨ k = 8
                     ∨ k = 9 ∨ k = 10 ∨ k = 11 ∨ k = 12) by lia.
    repeat (destruct Hcases as [->|Hcases]); try subst k;
      try (rewrite last_app in Hlast; simpl in Hlast; discriminate);
      try (simpl in Hcode; discriminate).
    apply Hsuffix. by exists pre.
  - rewrite take_app_ge in Hlast by (simpl; lia).
    rewrite !app_assoc in Hlast.
    destruct (lookup_lt_is_Some_2 name (k - 13)) as [c Hc].
    { rewrite length_app in Hlen. simpl in Hlen. lia. }
    replace (k - length process_env) with (S (k - 13)) in Hlast by (simpl; lia).
    rewrite (take_S_r _ _ _ Hc), !app_assoc, last_snoc in Hlast. simpl in Hlast.
    apply forallb_forall with (x := c) in Hname; [congruence |].
    apply list_elem_of_In. by eapply list_elem_of_lookup_2.
Qed.

(** A reference that does not come right after the literal is a match of
    the scan. *)
Lemma matchAll_complete pre : ∀ seen skip name post,
  inside seen skip (pre ++ process_env ++ name ++ post) →
  identifier name →
  from_option name_char false (last (seen ++ pre)) = false →
  from_option name_char false (head post) = false →
  ¬ process_env `suffix_of` (seen ++ pre) →
  name ∈ matchAll skip (last seen) (pre ++ process_env ++ name ++ post).
Proof.
  induction pre as [|c pre IH]; intros seen skip name post Hin Hid Hlast Hpost Hsuffix.
  - rewrite app_nil_r in Hlast, Hsuffix. simpl in Hin |- *.
    rewrite (inside_reference _ _ _ Hin Hlast Hsuffix).
    assert (Hmatch : match_here (last seen) (process_env ++ name ++ post) = Some name).
    { apply match_here_Some. by exists post. }
    change process_env with ("p"%char :: text "rocess.env.") in Hmatch |- *.
    simpl in Hmatch |- *. rewrite Hmatch. apply elem_of_cons. by left.
  - assert (Hnext : ∀ skip', inside (seen ++ [c]) skip' (pre ++ process_env ++ name ++ post) →
      name ∈ matchAll skip' (Some c) (pre ++ process_env ++ name ++ post)).
    { intros skip' Hin'. specialize (IH (seen ++ [c]) skip' name post).
      rewrite last_snoc, <- app_assoc in IH. by apply IH. }
    rewrite <- app_comm_cons. cbn [matchAll]. destruct skip as [|skip].
    + destruct (match_here (last seen) (c :: pre ++ process_env ++ name ++ post))
        as [found|] eqn:Hmatch.
      * apply elem_of_cons. right. apply Hnext. by eapply inside_match.
      * apply Hnext. by left.
    + apply Hnext. by apply inside_step.
Qed.

(** **** The digest *)

Lemma includes_true needle line :
  includes needle line = true ↔ ∃ pre post, line = pre ++ needle ++ post.
Proof.
  induction line as [|c line IH]; simpl.
  - destruct (after_literal needle []) as [rest|] eqn:E.
    + apply after_literal_Some in E. split; [| done]. intros _. by exists [], rest.
    + split; [done |]. intros (pre & post & Hline).
      destruct pre; [| done]. simpl in Hline.
      apply after_literal_Some in Hline. congruence.
  - destruct (after_literal needle (c :: line)) as [rest|] eqn:E.
    + apply after_literal_Some in E. split; [| done]. intros _. by exists [], rest.
    + rewrite IH. split.
      * intros (pre & post & ->). by exists (c :: pre), post.
      * intros (pre & post & Hline). destruct pre as [|c' pre].
        -- simpl in Hline. apply after_literal_Some in Hline. congruence.
        -- injection Hline as -> ->. by exists pre, post.
Qed.

Lemma digest_here_Some line found :
  digest_here line = Some found ↔
  ∃ digits post, line = text "sha256:" ++ digits ++ post
                 ∧ found = text "sha256:" ++ digits
                 ∧ length digits = 64 ∧ forallb hex digits = true.
Proof.
  unfold digest_here. split.
  - destruct (after_literal (text "sha256:") line) as [rest|] eqn:E; [| done].
    apply after_literal_Some in E as ->.
    destruct (decide _) as [[Hlen Hhex]|]; [| done]. intros [= <-].
    exists (take 64 rest), (drop 64 rest). by rewrite take_drop.
  - intros (digits & post & -> & -> & Hlen & Hhex).
    rewrite after_literal_app.
    rewrite take_app_length' by done.
    by rewrite decide_True.
Qed.

Lemma match_digest_Some line found :
  match_digest line = Some found →
  ∃ pre digits post, line = pre ++ found ++ post
                     ∧ found = text "sha256:" ++ digits
                     ∧ length digits = 64 ∧ forallb hex digits = true.
Proof.
  induction line as [|c line IH]; simpl.
  - done.
  - destruct (digest_here (c :: line)) as [d|] eqn:E.
    + intros [= ->].
      apply digest_here_Some in E as (digits & post & Hline & -> & ? & ?).
      exists [], digits, post. by rewrite <- app_assoc.
    + intros (pre & digits & post & -> & ? & ? & ?)%IH.
      by exists (c :: pre), digits, post.
Qed.

Lemma match_digest_is_Some pre digits post :
  length digits = 64 → forallb hex digits = true →
  is_Some (match_digest (pre ++ text "sha256:" ++ digits ++ post)).
Proof.
  intros Hlen Hhex. induction pre as [|c pre IH].
  - assert (E : digest_here (text "sha256:" ++ digits ++ post)
                = Some (text "sha256:" ++ digits)).
    { apply digest_here_Some. by exists digits, post. }
    change (text "sha256:") with ("s"%char :: text "ha256:") in E |- *.
    simpl in E |- *. by rewrite E.
  - change ((c :: pre) ++ ?l) with (c :: pre ++ l). 
    cbn [match_digest].
    destruct (digest_here _); [done |]. exact IH.
Qed.


(** **** From the characters back to the strings *)

Lemma occurs_in_text needle code :
  occurs_in needle code ↔ ∃ pre post, text code = pre ++ text needle ++ post.
Proof.
  split.
  - intros (pre & post & ->). exists (text pre), (text post). by rewrite !text_app.
  - intros (pre & post & Hcode).
    exists (String.string_of_list_ascii pre), (String.string_of_list_ascii post).
    apply text_inj. by rewrite !text_app, !text_of_string.
Qed.

Lemma matches_are_references code name :
  text name ∈ matchAll 0 None (text code) → ∃ pre post, reference_at code pre name post.
Proof.
  intros Hin.
  apply (matchAll_sound (text code) 0 []) in Hin
    as (pre & post & Hcode & Hid & Hlast & Hpost).
  exists (String.string_of_list_ascii pre), (String.string_of_list_ascii post).
  unfold reference_at. rewrite !text_of_string. split; [| done].
  apply text_inj. by rewrite !text_app, !text_of_string.
Qed.

Lemma references_are_matches code pre name post :
  reference_at code pre name post →
  ¬ (∃ before, pre = before +:+ "process.env.") →
  name ≠ "" ∧ text name ∈ matchAll 0 None (text code).
Proof.
  intros (-> & Hid & Hlast & Hpost) Hafter. split.
  - destruct Hid as (c & tail & Hname & _). by intros ->.
  - rewrite !text_app.
    apply (matchAll_complete (text pre) [] 0); try done; [by left |].
    intros [before Hpre]. apply Hafter.
    exists (String.string_of_list_ascii before).
    apply text_inj. by rewrite text_app, text_of_string.
Qed.

(** X18: [findAllEnvironmentVariableReferences] returns no name twice, and
    every name it returns stands in the code: after [process.env.], which
    does not follow a word character, comes the whole name, an identifier
    that no further name character follows. *)
Theorem references_stand_in_code (code : string) :
  NoDup (findAllEnvironmentVariableReferences code)
  ∧ ∀ name, name ∈ findAllEnvironmentVariableReferences code →
      ∃ pre post, reference_at code pre name post.
Proof.
  split; [apply NoDup_Set_from |].
  intros name [_ Hin]%elem_of_references. by apply matches_are_references.
Qed.

(** X19: a reference in the code, standing as a word of its own, is found,
    unless it comes right after another [process.env.] (the scan may then be
    in the middle of a match, as in [process.env.process.env.X], of which
    it returns [process] only). *)
Theorem reference_is_found (code pre name post : string) :
  reference_at code pre name post →
  ¬ (∃ before, pre = before +:+ "process.env.") →
  name ∈ findAllEnvironmentVariableReferences code.
Proof.
  intros Href Hafter. apply elem_of_references.
  by apply (references_are_matches code pre name post).
Qed.

Lemma reference_is_found_witness :
  "API_KEY" ∈ findAllEnvironmentVariableReferences
                "const key = process.env.API_KEY ?? process.env.FALLBACK;".
Proof.
  apply (reference_is_found _ "const key = " "API_KEY" " ?? process.env.FALLBACK;").
  - split; [reflexivity |]. split; [| done]. by exists "A"%char, (text "PI_KEY").
  - intros [before Hpre]. 
    apply (f_equal (λ s, last (text s))) in Hpre.
    rewrite last_text_app in Hpre by done. vm_compute in Hpre. discriminate.
Defined.

(** X20: the variables that [compileProject] returns are distinct, each is
    referred to in the bundle of the worker, and none of them is one that the
    worker facade or the tracing set-up refers to (by a reference that does
    not come right after another [process.env.]). *)
Theorem finalEnvVars_of_the_bundle (workerOutputText workerContents registerTracing : string) :
  let envVars := finalEnvVars workerOutputText workerContents registerTracing in
  NoDup envVars
  ∧ (∀ name, name ∈ envVars → ∃ pre post, reference_at workerOutputText pre name post)
  ∧ (∀ name pre post,
       reference_at workerContents pre name post
       ∨ reference_at registerTracing pre name post →
       ¬ (∃ before, pre = before +:+ "process.env.") →
       name ∉ envVars).
Proof.
  unfold finalEnvVars. split; [| split].
  - apply NoDup_filter, NoDup_Set_from.
  - intros name [_ [_ Hin]%elem_of_references]%list_elem_of_filter.
    by apply matches_are_references.
  - intros name pre post Href Hafter [[Hfacade Htracing] _]%list_elem_of_filter.
    destruct Href as [Href|Href].
    + apply Hfacade, elem_of_references. by apply (references_are_matches _ pre _ post).
    + apply Htracing, elem_of_references. by apply (references_are_matches _ pre _ post).
Qed.

(** X21: a digest that [extractImageDigest] returns is [sha256:] and 64
    characters of [a-f0-9], and it is taken from a line of the output that
    contains [pushing manifest]. *)
Theorem extractImageDigest_from_manifest_line (outputs : list string) (digest : string) :
  extractImageDigest outputs = Some digest →
  sha256_digest digest
  ∧ ∃ line, line ∈ outputs
            ∧ occurs_in "pushing manifest" line
            ∧ occurs_in digest line.
Proof.
  induction outputs as [|line outputs IH]; simpl; [done |].
  assert (Hrest : extractImageDigest outputs = Some digest →
    sha256_digest digest
    ∧ ∃ line', line' ∈ line :: outputs
               ∧ occurs_in "pushing manifest" line' ∧ occurs_in digest line').
  { intros [? (line' & ? & ? & ?)]%IH. split; [done |].
    exists line'. split; [| done]. apply elem_of_cons. by right. }
  destruct (includes _ _) eqn:Hincludes; [| done].
  destruct (match_digest (text line)) as [found|] eqn:Hmatch; [| done].
  intros [= <-].
  apply match_digest_Some in Hmatch as (pre & digits & post & Hline & -> & Hlen & Hhex).
  split.
  - exists (String.string_of_list_ascii digits).
    rewrite text_of_string. split; [| done].
    by rewrite string_of_app.
  - exists line. split; [apply elem_of_cons; by left |]. split.
    + apply occurs_in_text. by apply includes_true.
    + apply occurs_in_text. exists pre, post. by rewrite text_of_string.
Qed.

Lemma extractImageDigest_from_manifest_line_witness :
  let digest := "sha256:0123456789abcdef0123456789abcdef0123456789abcdef0123456789abcdef" in
  sha256_digest digest
  ∧ ∃ line, line ∈ ["#11 exporting layers"; "#11 pushing manifest for registry/app@" +:+ digest +:+ " 0.3s done"]
            ∧ occurs_in "pushing manifest" line
            ∧ occurs_in digest line.
Proof.
  intros digest.
  apply (extractImageDigest_from_manifest_line
           ["#11 exporting layers"; "#11 pushing manifest for registry/app@" +:+ digest +:+ " 0.3s done"]).
  vm_compute. reflexivity.
Defined.

(** X22: [extractImageDigest] returns a digest from the first line that
    contains both [pushing manifest] and a digest, whatever lines come after
    it. *)
Theorem extractImageDigest_first_manifest_line
    (before after : list string) (line digest : string) :
  Forall (λ earlier, ¬ (occurs_in "pushing manifest" earlier
                        ∧ ∃ d, sha256_digest d ∧ occurs_in d earlier)) before →
  occurs_in "pushing manifest" line →
  sha256_digest digest →
  occurs_in digest line →
  ∃ found, extractImageDigest (before ++ line :: after) = Some found
           ∧ sha256_digest found ∧ occurs_in found line.
Proof.
  intros Hbefore Hmanifest (digits & -> & Hlen & Hhex) Hdigest.
  induction Hbefore as [|earlier before Hearlier _ IH]; cbn [app extractImageDigest].
  - apply occurs_in_text, includes_true in Hmanifest. rewrite Hmanifest.
    apply occurs_in_text in Hdigest as (pre & post & Hline).
    destruct (match_digest_is_Some pre (text digits) post Hlen Hhex) as [found Hfound].
    rewrite text_app, <- app_assoc in Hline. rewrite <- Hline in Hfound.
    rewrite Hfound.
    exists (String.string_of_list_ascii found). split; [done |].
    apply match_digest_Some in Hfound as (pre' & digits' & post' & Hline' & -> & ? & ?).
    split.
    + exists (String.string_of_list_ascii digits').
      rewrite text_of_string. split; [| done]. by rewrite string_of_app.
    + apply occurs_in_text. exists pre', post'. by rewrite text_of_string.
  - destruct (includes _ (text earlier)) eqn:Hincludes; [| done].
    destruct (match_digest (text earlier)) as [found|] eqn:Hmatch; [| done].
    exfalso. apply Hearlier. split.
    + apply occurs_in_text. by apply includes_true.
    + apply match_digest_Some in Hmatch as (pre' & digits' & post' & Hline' & -> & ? & ?).
      exists (String.string_of_list_ascii (text "sha256:" ++ digits')). split.
      * exists (String.string_of_list_ascii digits').
        rewrite text_of_string. split; [| done]. by rewrite string_of_app.
      * apply occurs_in_text. exists pre', post'. by rewrite text_of_string.
Qed.

Lemma extractImageDigest_first_manifest_line_witness :
  let digest := "sha256:0123456789abcdef0123456789abcdef0123456789abcdef0123456789abcdef" in
  let line := "#11 pushing manifest for registry/app@" +:+ digest +:+ " 0.3s done" in
  ∃ found, extractImageDigest (["#11 exporting layers"] ++ line :: ["#11 DONE 1.2s"])
           = Some found
           ∧ sha256_digest found ∧ occurs_in found line.
Proof.
  intros digest line.
  apply (extractImageDigest_first_manifest_line
           ["#11 exporting layers"] ["#11 DONE 1.2s"] line digest).
  - constructor; [| constructor]. intros [Hmanifest _].
    apply occurs_in_text, includes_true in Hmanifest.
    vm_compute in Hmanifest. discriminate.
  - by exists "#11 ", (" for registry/app@" +:+ digest +:+ " 0.3s done").
  - exists "0123456789abcdef0123456789abcdef0123456789abcdef0123456789abcdef".
    split; [reflexivity |]. split; vm_compute; reflexivity.
  - by exists "#11 pushing manifest for registry/app@", " 0.3s done".
Defined.

End ScanFacts.

(* ===== further properties: build ===== *)
Module BuildMore.
Import Build BuildNotions BuildFacts.

Lemma elem_of_obj_get (o : JsObject) k v :
  NoDup o.*1 → (k, v) ∈ o ↔ obj_get o k = Some v.
Proof.
  induction o as [|[k0 v0] o IH]; simpl.
  - intros _. split; [by intros ?%elem_of_nil | done].
  - intros [Hk0 Hnodup]%NoDup_cons. rewrite elem_of_cons, (IH Hnodup).
    destruct (decide (k0 = k)) as [->|Hne].
    + split; [| intros [= ->]; by left].
      intros [[= ->]|Hget]; [done |].
      apply obj_get_None in Hk0. congruence.
    + split; [| by right]. intros [[= ? ?]|?]; [congruence | done].
Qed.

(** The gathered dependencies are the same set of properties, whatever the
    order of the imports. *)
Lemma gathered_Permutation runtime externalPackageJson imports1 imports2 :
  imports1 ≡ₚ imports2 →
  gatherRequiredDependencies runtime imports1 externalPackageJson
  ≡ₚ gatherRequiredDependencies runtime imports2 externalPackageJson.
Proof.
  intros Hperm.
  destruct (gatherRequiredDependencies_gathered runtime externalPackageJson imports1)
    as [Hnodup1 Hget1].
  destruct (gatherRequiredDependencies_gathered runtime externalPackageJson imports2)
    as [Hnodup2 Hget2].
  apply NoDup_Permutation.
  - by eapply NoDup_fmap_1.
  - by eapply NoDup_fmap_1.
  - intros [k v]. rewrite !elem_of_obj_get, Hget1, Hget2 by done.
    by setoid_rewrite Hperm.
Qed.

(** X23: the content hash of [compileProject] does not depend on the order
    in which the two bundles list their imports, nor on which of the two
    lists an import: imports that are the same up to order give the same
    hash, as long as [localeCompare] is a consistent comparison that tells
    the gathered package names apart. *)
Theorem compile_contentHash_import_order (runtime : Runtime)
    (entryPointText workerText : string)
    (imports1 entryPointImports1 imports2 entryPointImports2 : list Import)
    (projectPackageJson : option PackageJson) :
  consistent (localeCompare runtime) →
  distinguishes (localeCompare runtime)
    (gatherRequiredDependencies runtime (imports1 ++ entryPointImports1)
       projectPackageJson) →
  imports1 ++ entryPointImports1 ≡ₚ imports2 ++ entryPointImports2 →
  compile_contentHash runtime entryPointText workerText imports1 entryPointImports1
    projectPackageJson
  = compile_contentHash runtime entryPointText workerText imports2 entryPointImports2
      projectPackageJson.
Proof.
  intros Hconsistent Hdistinct Hperm. unfold compile_contentHash, contentHash.
  rewrite (sorted_entries_order_independent runtime Hconsistent _
             (gatherRequiredDependencies runtime (imports2 ++ entryPointImports2)
                projectPackageJson)); [done | | done |].
  - apply (gatherRequiredDependencies_gathered runtime projectPackageJson).
  - by apply gathered_Permutation.
Qed.

Lemma compile_contentHash_import_order_witness :
  compile_contentHash sample_runtime "entry" "worker"
    [require_call "zod"; require_call "lodash/fp"] [require_call "@trigger.dev/core/v3"]
    sample_packageJson
  = compile_contentHash sample_runtime "entry" "worker"
      [require_call "lodash/fp"; require_call "@trigger.dev/core/v3"] [require_call "zod"]
      sample_packageJson.
Proof.
  apply (compile_contentHash_import_order sample_runtime).
  - apply sample_localeCompare_consistent.
  - apply sample_localeCompare_distinguishes.
  - apply (Permutation_cons_append [_; _]).
Defined.

(** X24: what is fed to the hasher lists every dependency once, in the order
    of [localeCompare], when no package name is an array index
    (an object lists such keys first, in numeric order, whatever the order
    of insertion). *)
Theorem sortedDependencies_listed_in_order (runtime : Runtime) (dependencies : JsObject) :
  consistent (localeCompare runtime) →
  NoDup dependencies.*1 →
  Forall (λ entry, array_index entry.1 = None) dependencies →
  StronglySorted (before (by_key runtime)) (listed runtime dependencies)
  ∧ listed runtime dependencies ≡ₚ dependencies.
Proof.
  intros [Htotal Htrans] Hnodup Hplain. unfold listed.
  rewrite (stringify_sorted runtime dependencies Hnodup Hplain). split.
  - apply sort_sorted; unfold by_key; [intros; apply Htotal | intros ???; apply Htrans].
  - apply sort_Permutation.
Qed.

Lemma sortedDependencies_listed_in_order_witness :
  let dependencies := [("zod", "3.21.0"); ("lodash", "4.17.21"); ("@trigger.dev/core", "3.0.0")] in
  StronglySorted (before (by_key sample_runtime)) (listed sample_runtime dependencies)
  ∧ listed sample_runtime dependencies ≡ₚ dependencies.
Proof.
  apply (sortedDependencies_listed_in_order sample_runtime).
  - apply sample_localeCompare_consistent.
  - simpl. repeat (apply NoDup_cons_2; [distinct_keys |]). apply NoDup_nil_2.
  - repeat constructor.
Defined.

End BuildMore.

(* ===== further properties: schemas ===== *)
Module SchemasMore.
Import Schemas SchemasFacts.

(** X25: a machine that was parsed has a [cpu] and a [memory] exactly as
    the input has them: where the input leaves one out, the parsed machine
    has none, and the defaults ["1"] and ["500Mi"] are not filled in, since
    [optional] is applied on top of [default]. *)
Theorem Machine_defaults_never_apply
    (imported : string → option Json → option (option Json))
    (fields out : list (string * Json)) :
  parse imported Machine (Some (JObj fields)) = Some (Some (JObj out)) →
  field "cpu" out = field "cpu" fields ∧ field "memory" out = field "memory" fields.
Proof.
  simpl.
  destruct (field "cpu" fields) as [[| | |cpu| |]|];
    destruct (field "memory" fields) as [[| | |memory| |]|]; simpl; try done.
  all: by intros [= <-].
Qed.

Lemma Machine_defaults_never_apply_witness :
  field "cpu" [] = field "cpu" ([] : list (string * Json))
  ∧ field "memory" [("memory", JStr "1Gi")] = field "memory" [("memory", JStr "1Gi")].
Proof.
  split.
  - apply (Machine_defaults_never_apply sample_imported [] []). reflexivity.
  - apply (Machine_defaults_never_apply sample_imported
             [("memory", JStr "1Gi")] [("memory", JStr "1Gi")]). reflexivity.
Defined.

End SchemasMore.

(* ===== properties: sentences ===== *)
Module SentenceFacts.
Import Deploy Scan ScanFacts.

Lemma append_assoc (a b c : string) : (a +:+ b) +:+ c = a +:+ b +:+ c.
Proof. apply text_inj. by rewrite !text_app, app_assoc. Qed.

Lemma append_empty_r (a : string) : a +:+ "" = a.
Proof. apply text_inj. by rewrite text_app, app_nil_r. Qed.

Lemma occurs_in_append_l needle a b : occurs_in needle a → occurs_in needle (a +:+ b).
Proof.
  intros (pre & post & ->). exists pre, (post +:+ b). by rewrite !append_assoc.
Qed.

Lemma occurs_in_append_r needle a b : occurs_in needle b → occurs_in needle (a +:+ b).
Proof.
  intros (pre & post & ->). exists (a +:+ pre), post. by rewrite !append_assoc.
Qed.

Lemma occurs_in_refl a : occurs_in a a.
Proof. exists "", "". by rewrite append_empty_r. Qed.

Lemma occurs_in_join sep items item :
  item ∈ items → occurs_in item (join sep items).
Proof.
  induction items as [|x items IH]; [by intros ?%elem_of_nil |].
  intros [->|Hin]%elem_of_cons.
  - destruct items as [|y items]; simpl; [apply occurs_in_refl |].
    apply occurs_in_append_l, occurs_in_refl.
  - destruct items as [|y items]; [by apply elem_of_nil in Hin |].
    change (join sep (x :: y :: items)) with (x +:+ sep +:+ join sep (y :: items)).
    by apply occurs_in_append_r, occurs_in_append_r, IH.
Qed.

(** X26: the sentence that [arrayToSentence] makes names every item of the
    list. *)
Theorem arrayToSentence_names_every_item (items : list string) (item : string) :
  item ∈ items → occurs_in item (arrayToSentence items).
Proof.
  intros Hin.
  assert (Hgeneral : occurs_in item
    (join ", " (removelast items) +:+ ", and " +:+ template (last items))).
  { destruct (last items) as [final|] eqn:Hlast.
    - apply last_Some in Hlast as (start & ->).
      rewrite removelast_last.
      apply elem_of_app in Hin as [Hin | ->%list_elem_of_singleton].
      + by apply occurs_in_append_l, occurs_in_join.
      + apply occurs_in_append_r, occurs_in_append_r. simpl. apply occurs_in_refl.
    - apply last_None in Hlast as ->. by apply elem_of_nil in Hin. }
  unfold arrayToSentence.
  destruct items as [|x [|y [|z items]]]; try done.
  - apply list_elem_of_singleton in Hin as ->. apply occurs_in_refl.
  - apply elem_of_cons in Hin as [-> | ->%list_elem_of_singleton].
    + apply occurs_in_append_l, occurs_in_refl.
    + apply occurs_in_append_r, occurs_in_append_r, occurs_in_refl.
Qed.

Lemma arrayToSentence_names_every_item_witness :
  occurs_in "SECRET" (arrayToSentence ["API_KEY"; "SECRET"; "TOKEN"]).
Proof.
  apply arrayToSentence_names_every_item.
  apply elem_of_cons. right. apply elem_of_cons. by left.
Defined.

End SentenceFacts.
